(** * Lithuanian Market Product Analyzer: a model of [streamlit_app.py]

    The script is a Streamlit page: every user interaction re-executes it
    from the top against a persistent [st.session_state].  The model below
    follows the script block by block.  The two calls to the OpenAI service
    and the wall clock are inputs of a run; the UI calls that report
    something to the user ([st.error], [st.warning], ...) are collected in a
    log; Python exceptions are an explicit outcome. *)

From Stdlib Require Import NArith ZArith String Ascii List Bool Lia ZifyN.
From stdpp Require Import base option list gmap sorting.
Import ListNotations.

Local Open Scope N_scope.

(** ** Python strings

    A Python [str] is a sequence of Unicode code points. *)

Definition char := N.
Definition text := list N.

Definition txt (s : string) : text := map N_of_ascii (list_ascii_of_string s).
Definition chr (a : ascii) : char := N_of_ascii a.

(** A text written with the apostrophe standing for the double quote (code
    point 34), to keep JSON documents readable. *)
Definition jtxt (s : string) : text :=
  map (fun c => if c =? 39 then 34 else c) (txt s).

Definition text_eqb (a b : text) : bool := bool_decide (a = b).

(** [str.isspace] on one code point, which is what [\s] tests in a [str]
    pattern. *)
Definition is_space (c : char) : bool :=
  ((9 <=? c) && (c <=? 13)) || ((28 <=? c) && (c <=? 32))
  || (c =? 133) || (c =? 160) || (c =? 5760)
  || ((8192 <=? c) && (c <=? 8202))
  || (c =? 8232) || (c =? 8233) || (c =? 8239) || (c =? 8287) || (c =? 12288).

(** ** Decoded JSON values

    [json.loads] yields [None], [bool], [int], [float], [str], [list] and
    [dict].  A float is kept as the decimal number its literal denotes,
    [mantissa * 10 ^ exponent] with no trailing zero in the mantissa; the
    rounding to binary64 is not modelled.  A [dict] is kept in insertion
    order with unique keys. *)

#[warnings="-register-all"]
Inductive json :=
| JNull
| JBool (b : bool)
| JInt (z : Z)
| JFloat (mantissa exponent : Z)
| JNonFinite (name : text)          (* NaN, Infinity, -Infinity *)
| JStr (s : text)
| JArr (items : list json)
| JObj (members : list (text * json)).

Fixpoint dict_get {V} (k : text) (d : list (text * V)) : option V :=
  match d with
  | [] => None
  | (k', v) :: d' => if text_eqb k k' then Some v else dict_get k d'
  end.

(** [d[k] = v]: an existing key keeps its place. *)
Fixpoint dict_set {V} (k : text) (v : V) (d : list (text * V)) : list (text * V) :=
  match d with
  | [] => [(k, v)]
  | (k', v') :: d' =>
      if text_eqb k k' then (k, v) :: d' else (k', v') :: dict_set k v d'
  end.

Definition dict_has {V} (k : text) (d : list (text * V)) : bool :=
  match dict_get k d with Some _ => true | None => false end.

(** ** Exceptions and reported messages *)

Inductive exn :=
| JSONDecodeError
| RecursionError
| TypeError
| AttributeError
| FileNotFoundError               (* no secrets file, raised by [st.secrets] *)
| UnicodeEncodeError              (* a lone surrogate in a text for the page *)
| ServiceError (detail : text).   (* transport, authentication, bad reply *)

Inductive res (A : Type) :=
| Ok (a : A)
| Raise (e : exn).
Arguments Ok {A} a.
Arguments Raise {A} e.

(** What a run puts on the page, in order.  Layout calls (columns,
    spinner, progress bar, status line, the link written next to a checkbox)
    are left out.  [e] is the exception whose text ends the message. *)
Inductive ui :=
| st_set_page_config
| st_title (m : text)
| st_markdown (m : text)
| st_tabs
| st_header (m : text)
| st_subheader (m : text)
| st_text_input (label : text)
| st_text_area (label : text)
| st_selectbox (label : text)
| st_checkbox (key : nat)               (* key url_i *)
| st_button (label : text)
| st_error (m : text) (e : option exn)
| st_warning (m : text) (e : option exn)
| st_success (m : text)
| st_info (m : text)
| call_display_results (all_products : list json).   (* line 402 *)

Definition is_input_widget (u : ui) : bool :=
  match u with
  | st_text_input _ | st_text_area _ | st_selectbox _ | st_checkbox _
  | st_button _ => true
  | _ => false
  end.

(** A computation that reports to the page and returns or raises. *)
Record M (A : Type) := mkM { log : list ui; outcome : res A }.
Arguments mkM {A} log outcome.
Arguments log {A} m.
Arguments outcome {A} m.

Definition ret {A} (a : A) : M A := mkM [] (Ok a).
Definition raise {A} (e : exn) : M A := mkM [] (Raise e).
Definition lift {A} (r : res A) : M A := mkM [] r.
Definition tell (u : ui) : M unit := mkM [u] (Ok tt).

Definition bind {A B} (m : M A) (k : A -> M B) : M B :=
  match outcome m with
  | Ok a => mkM (log m ++ log (k a)) (outcome (k a))
  | Raise e => mkM (log m) (Raise e)
  end.

(** [try: body except Exception as e: handler(e)] *)
Definition try_except {A} (body : M A) (handler : exn -> M A) : M A :=
  match outcome body with
  | Ok a => body
  | Raise e => mkM (log body ++ log (handler e)) (outcome (handler e))
  end.

#[global] Instance M_ret : MRet M := @ret.
#[global] Instance M_bind : MBind M := fun A B k m => bind m k.

(** ** The regular expression of [analyze_product_prices]

    [re.search(PATTERN, response_text, re.DOTALL)], where PATTERN is the
    alternation of [\[\s*{.*}\s*\]] and of
    [\{\s*'products'\s*:\s*\[.*\]\s*\}] (with double quotes around
    [products]): two sequences of single characters and greedy starred
    character classes. *)

Inductive atom :=
| Lit (c : char)
| Space          (* \s *)
| AnyChar.       (* . under re.DOTALL *)

Inductive item :=
| One (a : atom)
| Star (a : atom).

Definition atom_ok (a : atom) (c : char) : bool :=
  match a with
  | Lit c' => c =? c'
  | Space => is_space c
  | AnyChar => true
  end.

(** Backtracking match of a sequence at the start of [s]; the result is the
    matched prefix.  A greedy star takes as many characters as it can and
    gives them back one at a time. *)
Fixpoint match_here (p : list item) (s : text) {struct p} : option text :=
  match p with
  | [] => Some []
  | One a :: p' =>
      match s with
      | c :: s' => if atom_ok a c then cons c <$> match_here p' s' else None
      | [] => None
      end
  | Star a :: p' =>
      (fix star (s : text) : option text :=
         match s with
         | c :: s' =>
             if atom_ok a c then
               match star s' with
               | Some m => Some (c :: m)
               | None => match_here p' s
               end
             else match_here p' s
         | [] => match_here p' s
         end) s
  end.

(** Alternatives are tried left to right. *)
Fixpoint match_alt (alts : list (list item)) (s : text) : option text :=
  match alts with
  | [] => None
  | p :: alts' =>
      match match_here p s with
      | Some m => Some m
      | None => match_alt alts' s
      end
  end.

(** [re.search]: the first start position with a match; the result is
    [group(0)]. *)
Fixpoint re_search (alts : list (list item)) (s : text) : option text :=
  match match_alt alts s with
  | Some m => Some m
  | None =>
      match s with
      | [] => None
      | _ :: s' => re_search alts s'
      end
  end.

Definition lits (s : string) : list item := map (fun c => One (Lit c)) (txt s).

(** [\[\s*{.*}\s*\]] *)
Definition array_of_objects_pattern : list item :=
  [One (Lit (chr "[")); Star Space; One (Lit (chr "{")); Star AnyChar;
   One (Lit (chr "}")); Star Space; One (Lit (chr "]"))].

(** The second alternative, an opening brace, the quoted key [products], a
    colon, a bracketed part and a closing brace. *)
Definition products_object_pattern : list item :=
  [One (Lit (chr "{")); Star Space] ++
  One (Lit 34) :: lits "products" ++ [One (Lit 34)] ++
  [Star Space; One (Lit (chr ":")); Star Space; One (Lit (chr "["));
   Star AnyChar; One (Lit (chr "]")); Star Space; One (Lit (chr "}"))].

Definition json_pattern : list (list item) :=
  [array_of_objects_pattern; products_object_pattern].

(** ** [json.loads]

    The decoder of the Python standard library, after [json/decoder.py] and
    [json/scanner.py]: [scanstring] in strict mode, [JSONArray],
    [JSONObject], [scan_once] and [decode].  A malformed document raises
    [JSONDecodeError].  The fuel bounds the nesting; running out of it is
    reported as [RecursionError], which is what Python raises for a document
    nested beyond its recursion limit.  The program below takes the decoder
    as a parameter, and this one instantiates it. *)

#[global] Instance res_ret : MRet res := @Ok.
#[global] Instance res_bind : MBind res := fun A B k r =>
  match r with Ok a => k a | Raise e => Raise e end.

Definition is_json_ws (c : char) : bool :=
  (c =? 32) || (c =? 9) || (c =? 10) || (c =? 13).

Fixpoint skip_ws (s : text) : text :=
  match s with
  | c :: s' => if is_json_ws c then skip_ws s' else s
  | [] => []
  end.

Fixpoint starts_with (p s : text) : option text :=
  match p, s with
  | [], _ => Some s
  | a :: p', b :: s' => if a =? b then starts_with p' s' else None
  | _ :: _, [] => None
  end.

Definition is_digit (c : char) : bool := (48 <=? c) && (c <=? 57).

Definition hex_digit (c : char) : option N :=
  if is_digit c then Some (c - 48)
  else if (65 <=? c) && (c <=? 70) then Some (c - 55)
  else if (97 <=? c) && (c <=? 102) then Some (c - 87)
  else None.

Definition decode_uXXXX (s : text) : option (N * text) :=
  match s with
  | a :: b :: c :: d :: rest =>
      match hex_digit a, hex_digit b, hex_digit c, hex_digit d with
      | Some a, Some b, Some c, Some d =>
          Some (((a * 16 + b) * 16 + c) * 16 + d, rest)
      | _, _, _, _ => None
      end
  | _ => None
  end.

(** The [BACKSLASH] table: the character an escape letter stands for. *)
Definition simple_escape (e : char) : option char :=
  if e =? 34 then Some 34            (* quote *)
  else if e =? 92 then Some 92       (* backslash *)
  else if e =? 47 then Some 47       (* slash *)
  else if e =? 98 then Some 8        (* b *)
  else if e =? 102 then Some 12      (* f *)
  else if e =? 110 then Some 10      (* n *)
  else if e =? 114 then Some 13      (* r *)
  else if e =? 116 then Some 9       (* t *)
  else None.

(** [s] starts after the opening quote. *)
Fixpoint scanstring (fuel : nat) (s acc : text) : res (text * text) :=
  match fuel with
  | O => Raise JSONDecodeError
  | S fuel =>
      match s with
      | [] => Raise JSONDecodeError
      | c :: s' =>
          if c =? 34 then Ok (acc, s')
          else if c =? 92 then
            match s' with
            | [] => Raise JSONDecodeError
            | e :: s'' =>
                if e =? 117 then
                  match decode_uXXXX s'' with
                  | None => Raise JSONDecodeError
                  | Some (uni, rest) =>
                      if (55296 <=? uni) && (uni <=? 56319) then
                        match starts_with [92; 117] rest with
                        | Some rest1 =>
                            match decode_uXXXX rest1 with
                            | None => Raise JSONDecodeError
                            | Some (uni2, rest2) =>
                                if (56320 <=? uni2) && (uni2 <=? 57343) then
                                  scanstring fuel rest2
                                    (acc ++ [65536 + ((uni - 55296) * 1024 + (uni2 - 56320))])
                                else scanstring fuel rest (acc ++ [uni])
                            end
                        | None => scanstring fuel rest (acc ++ [uni])
                        end
                      else scanstring fuel rest (acc ++ [uni])
                  end
                else
                  match simple_escape e with
                  | Some ch => scanstring fuel s'' (acc ++ [ch])
                  | None => Raise JSONDecodeError
                  end
            end
          else if c <? 32 then Raise JSONDecodeError
          else scanstring fuel s' (acc ++ [c])
      end
  end.

Fixpoint take_digits (s : text) : text * text :=
  match s with
  | c :: s' =>
      if is_digit c then let '(ds, rest) := take_digits s' in (c :: ds, rest)
      else ([], s)
  | [] => ([], [])
  end.

Definition digits_value (ds : text) : Z :=
  fold_left (fun acc c => (acc * 10 + Z.of_N (c - 48))%Z) ds 0%Z.

(** The integer part of [NUMBER_RE], an optional minus sign and either a
    single zero or a digit string without leading zero: sign, digits, rest. *)
Definition number_integer (s : text) : option (bool * text * text) :=
  let '(neg, s1) :=
    match s with
    | c :: s' => if c =? 45 then (true, s') else (false, s)
    | [] => (false, s)
    end in
  match s1 with
  | c :: s' =>
      if c =? 48 then Some (neg, [c], s')
      else if is_digit c then
        let '(ds, rest) := take_digits s' in Some (neg, c :: ds, rest)
      else None
  | [] => None
  end.

(** The optional fraction of [NUMBER_RE]: a dot and at least one digit. *)
Definition number_frac (s : text) : option text * text :=
  match s with
  | c :: s' =>
      if c =? 46 then
        match take_digits s' with
        | ([], _) => (None, s)
        | (ds, rest) => (Some ds, rest)
        end
      else (None, s)
  | [] => (None, s)
  end.

(** The optional exponent of [NUMBER_RE]: e or E, an optional sign and at
    least one digit. *)
Definition number_exp (s : text) : option Z * text :=
  match s with
  | c :: s' =>
      if (c =? 101) || (c =? 69) then
        let '(neg, s1) :=
          match s' with
          | d :: s'' =>
              if d =? 45 then (true, s'')
              else if d =? 43 then (false, s'') else (false, s')
          | [] => (false, s')
          end in
        match take_digits s1 with
        | ([], _) => (None, s)
        | (ds, rest) =>
            (Some (if neg then (- digits_value ds)%Z else digits_value ds), rest)
        end
      else (None, s)
  | [] => (None, s)
  end.

(** The decimal [m * 10 ^ e] without trailing zeros in [m]. *)
Fixpoint normal_decimal (fuel : nat) (m e : Z) : json :=
  match fuel with
  | O => JFloat m e
  | S fuel =>
      if (m =? 0)%Z then JFloat 0 0
      else if (m mod 10 =? 0)%Z then normal_decimal fuel (m / 10)%Z (e + 1)%Z
      else JFloat m e
  end.

Definition scan_number (s : text) : option (json * text) :=
  match number_integer s with
  | None => None
  | Some (neg, ds, s1) =>
      let '(frac, s2) := number_frac s1 in
      let '(exp, s3) := number_exp s2 in
      let sign (z : Z) := if neg then (- z)%Z else z in
      match frac, exp with
      | None, None => Some (JInt (sign (digits_value ds)), s3)
      | _, _ =>
          let fs := default [] frac in
          Some (normal_decimal (length (ds ++ fs))
                  (sign (digits_value (ds ++ fs)))
                  (default 0%Z exp - Z.of_nat (length fs))%Z, s3)
      end
  end.

Definition scan_constant (s : text) : option (json * text) :=
  match starts_with (txt "null") s with
  | Some r => Some (JNull, r)
  | None =>
  match starts_with (txt "true") s with
  | Some r => Some (JBool true, r)
  | None =>
  match starts_with (txt "false") s with
  | Some r => Some (JBool false, r)
  | None =>
  match scan_number s with
  | Some vr => Some vr
  | None =>
  match starts_with (txt "NaN") s with
  | Some r => Some (JNonFinite (txt "NaN"), r)
  | None =>
  match starts_with (txt "Infinity") s with
  | Some r => Some (JNonFinite (txt "Infinity"), r)
  | None =>
  match starts_with (txt "-Infinity") s with
  | Some r => Some (JNonFinite (txt "-Infinity"), r)
  | None => None
  end end end end end end end.

Fixpoint scan_once (fuel : nat) (s : text) {struct fuel} : res (json * text) :=
  match fuel with
  | O => Raise RecursionError
  | S fuel =>
      match s with
      | [] => Raise JSONDecodeError
      | c :: s' =>
          if c =? 34 then
            '(str, rest) ← scanstring (length s) s' []; Ok (JStr str, rest)
          else if c =? 123 then
            match skip_ws s' with
            | d :: s'' =>
                if d =? 34 then JSONObject fuel s'' []
                else if d =? 125 then Ok (JObj [], s'')
                else Raise JSONDecodeError
            | [] => Raise JSONDecodeError
            end
          else if c =? 91 then
            match skip_ws s' with
            | d :: s'' =>
                if d =? 93 then Ok (JArr [], s'')
                else JSONArray fuel (d :: s'') []
            | [] => Raise JSONDecodeError
            end
          else
            match scan_constant s with
            | Some vr => Ok vr
            | None => Raise JSONDecodeError
            end
      end
  end

(** [s] starts at a value; [acc] holds the values read so far. *)
with JSONArray (fuel : nat) (s : text) (acc : list json) {struct fuel}
  : res (json * text) :=
  match fuel with
  | O => Raise RecursionError
  | S fuel =>
      '(value, rest) ← scan_once fuel s;
      match skip_ws rest with
      | c :: rest' =>
          if c =? 93 then Ok (JArr (acc ++ [value]), rest')
          else if c =? 44 then JSONArray fuel (skip_ws rest') (acc ++ [value])
          else Raise JSONDecodeError
      | [] => Raise JSONDecodeError
      end
  end

(** [s] starts after the opening quote of a key; [acc] is the [dict] so
    far. *)
with JSONObject (fuel : nat) (s : text) (acc : list (text * json)) {struct fuel}
  : res (json * text) :=
  match fuel with
  | O => Raise RecursionError
  | S fuel =>
      '(key, rest) ← scanstring (length s) s [];
      match skip_ws rest with
      | c :: rest1 =>
          if c =? 58 then
            '(value, rest2) ← scan_once fuel (skip_ws rest1);
            let acc := dict_set key value acc in
            match skip_ws rest2 with
            | d :: rest3 =>
                if d =? 125 then Ok (JObj acc, rest3)
                else if d =? 44 then
                  match skip_ws rest3 with
                  | q :: rest4 =>
                      if q =? 34 then JSONObject fuel rest4 acc
                      else Raise JSONDecodeError
                  | [] => Raise JSONDecodeError
                  end
                else Raise JSONDecodeError
            | [] => Raise JSONDecodeError
            end
          else Raise JSONDecodeError
      | [] => Raise JSONDecodeError
      end
  end.

Definition json_loads (s : text) : res json :=
  match s with
  | 65279 :: _ => Raise JSONDecodeError      (* a leading BOM is refused *)
  | _ =>
      '(obj, rest) ← scan_once (2 * length s + 2) (skip_ws s);
      match skip_ws rest with
      | [] => Ok obj
      | _ :: _ => Raise JSONDecodeError      (* Extra data *)
      end
  end.

(** ** Numbers and time as text *)

Local Open Scope nat_scope.

Fixpoint dec (fuel : nat) (n : N) : text :=
  match fuel with
  | O => []
  | S fuel =>
      if (n <? 10)%N then [(48 + n)%N]
      else dec fuel (n / 10)%N ++ [(48 + n mod 10)%N]
  end.

(** [str(n)] for a non-negative [int]. *)
Definition str_N (n : N) : text := dec (S (N.to_nat n)) n.
Definition str_nat (n : nat) : text := str_N (N.of_nat n).

(** Two digits, zero padded. *)
Definition dec2 (n : N) : text := [(48 + n / 10)%N; (48 + n mod 10)%N].

(** The local time read by [time.strftime] when no time is passed, as
    [time.localtime()] gives it.  The format of line 392 prints the first
    six fields; [tm_isdst] tells the two readings apart that the hour
    repeated at the end of daylight saving time shares. *)
Record struct_time := {
  tm_year : N; tm_mon : N; tm_mday : N;
  tm_hour : N; tm_min : N; tm_sec : N;
  tm_isdst : bool }.

(** [time.strftime("%Y-%m-%d %H:%M:%S")] *)
Definition strftime (t : struct_time) : text :=
  str_N (tm_year t) ++ txt "-" ++ dec2 (tm_mon t) ++ txt "-" ++ dec2 (tm_mday t)
  ++ txt " " ++ dec2 (tm_hour t) ++ txt ":" ++ dec2 (tm_min t) ++ txt ":"
  ++ dec2 (tm_sec t).

(** ** The page *)

(** The keys of [price_calculation_options]. *)
Inductive objective := obj_none | obj_unit | obj_kg | obj_liter | obj_package.

Definition objective_key (o : objective) : text :=
  match o with
  | obj_none => txt "none"
  | obj_unit => txt "unit"
  | obj_kg => txt "kg"
  | obj_liter => txt "liter"
  | obj_package => txt "package"
  end.

(** The values of [price_calculation_options]. *)
Definition objective_label (o : objective) : text :=
  match o with
  | obj_none => txt "No special calculation (standard price)"
  | obj_unit => txt "Price per unit (e.g., per item)"
  | obj_kg => txt "Price per kilogram"
  | obj_liter => txt "Price per liter"
  | obj_package => txt "Price per package"
  end.

Definition objective_eqb (a b : objective) : bool :=
  text_eqb (objective_key a) (objective_key b).

Inductive button := Discover | AddURL | Analyze.

(** The widget values a run sees.  [custom_calc_unit] is what is typed
    into the field of lines 85-88, which is drawn for the basis [unit] only;
    the script reads it nowhere. *)
Record inputs := {
  product_category : text;
  product_name : text;
  tech_spec : text;
  price_calc_objective : objective;
  custom_calc_unit : text;
  new_url : text;
  pressed : option button }.

(** An entry of [st.session_state.search_history].  [results] refers to the
    list object that the run built as [all_products]. *)
Record history_entry := {
  timestamp : text;
  entry_category : text;
  entry_product_name : text;
  entry_tech_spec : text;
  entry_price_calc_objective : objective;
  results : nat }.

(** [st.session_state], with the list objects that history entries refer
    to.  [url_] holds the checkbox values stored under the keys [url_0],
    [url_1], ...; that Streamlit drops the value of a widget no run has
    drawn is not modelled. *)
Record session_state := {
  discovered_urls : option (list text);
  url_ : gmap nat bool;
  search_history : option (list history_entry);
  objects : list (list json) }.

Definition empty_session : session_state :=
  {| discovered_urls := None; url_ := ∅; search_history := None; objects := [] |}.

(** What lies outside the script during one run: the tables of the secrets
    file, [None] when there is no such file; the reply of the discovery
    request; the reply to the [i]-th extraction request of the run; and the
    clock, as the instant of the run in seconds since the epoch
    ([time.time()]) and the local reading of it ([time.localtime()]).  The
    local reading of a later instant can be an earlier one: the clock steps
    back an hour at the end of daylight saving time. *)
Record world := {
  secrets : option (list (text * list (text * text)));
  responses_parse : text -> text -> text -> res (option (list text));
  chat_completions : nat -> text -> text -> text -> text -> res (option text);
  time : N;
  localtime : struct_time }.

(** How a run ends: at the end of the script, at [st.stop()], at
    [st.experimental_rerun()], or on an exception nothing catches. *)
Inductive flow := Finished | Stopped | Rerun | Crashed (e : exn).

Definition truthy (s : text) : bool := match s with [] => false | _ => true end.

(** [l.remove(x)]: the first occurrence goes. *)
Fixpoint list_remove (x : text) (l : list text) : list text :=
  match l with
  | [] => []
  | y :: l' => if text_eqb x y then l' else y :: list_remove x l'
  end.

Definition list_in (x : text) (l : list text) : bool := existsb (text_eqb x) l.

(** [o.extend(xs)] on the list object [o]. *)
Definition extend (o : nat) (xs : list json) (objs : list (list json))
  : list (list json) :=
  alter (fun l => l ++ xs) o objs.

Section Program.

Variable loads : text -> res json.

(** Lines 116-140.  [reply] is the outcome of [client.responses.parse]:
    an exception, or [response.output_parsed], which is [None] when the
    reply did not fit the schema. *)
Definition discover_product_urls (reply : res (option (list text)))
  : M (list text) :=
  try_except
    (output_parsed ← lift reply;
     match output_parsed with
     | Some urls => mret urls
     | None => raise AttributeError
     end)
    (fun e => _ ← tell (st_error (txt "Error discovering URLs: ") (Some e));
              mret []).

(** Lines 246-252: the text handed to the decoder is the match of the
    pattern when there is one, the whole response otherwise. *)
Definition load_response (response_text : text) : res json :=
  match re_search json_pattern response_text with
  | Some json_str => loads json_str
  | None => loads response_text
  end.

(** Lines 255-258. *)
Definition products_of (products_data : json) : json :=
  match products_data with
  | JObj d =>
      match dict_get (txt "products") d with
      | Some v => v
      | None => products_data
      end
  | _ => products_data
  end.

(** Lines 245-263, the body of the inner [try].  [response_text] is
    [completion.choices[0].message.content], which can be [None]; then
    [re.search] raises. *)
Definition parse_products (response_text : option text) : M (list json) :=
  match response_text with
  | None => raise TypeError
  | Some response_text =>
      products_data ← lift (load_response response_text);
      match products_of products_data with
      | JArr products => mret products
      | _ => mret []
      end
  end.

(** Lines 228-270.  [reply] is the outcome of lines 229-240. *)
Definition analyze_product_prices (reply : res (option text)) : M (list json) :=
  try_except
    (response_text ← lift reply;
     try_except (parse_products response_text)
       (fun e =>
          _ ← tell (st_warning (txt "Could not parse products from URL: ") (Some e));
          mret []))
    (fun e => _ ← tell (st_error (txt "API request failed: ") (Some e));
              mret []).

(** Lines 365-382: the loop over [active_urls], [i] being the index of the
    first of [urls] and [all_products] the list object being filled. *)
Fixpoint analyze_loop (chat : nat -> text -> res (option text)) (i : nat)
    (urls : list text) (all_products : nat) (objs : list (list json))
  : list ui * list (list json) * res () :=
  match urls with
  | [] => ([], objs, Ok ())
  | url :: rest =>
      let r := analyze_product_prices (chat i url) in
      match outcome r with
      | Raise e => (log r, objs, Raise e)
      | Ok products =>
          let objs :=
            match products with
            | [] => objs
            | _ :: _ => extend all_products products objs
            end in
          let '(l, objs, o) := analyze_loop chat (S i) rest all_products objs in
          (log r ++ l, objs, o)
      end
  end.

(** Lines 358-359. *)
Fixpoint active_urls_from (i : nat) (urls : list text) (flags : gmap nat bool)
  : list text :=
  match urls with
  | [] => []
  | url :: rest =>
      if default true (flags !! i) then url :: active_urls_from (S i) rest flags
      else active_urls_from (S i) rest flags
  end.

Definition active_urls (urls : list text) (flags : gmap nat bool) : list text :=
  active_urls_from 0 urls flags.

(** Lines 166-174: one checkbox per URL, keyed by position; a checkbox
    returns the value stored under its key, [True] when there is none, and
    leaves it there. *)
Fixpoint checkbox_loop (i : nat) (urls : list text) (flags : gmap nat bool)
  : list ui * list text * gmap nat bool :=
  match urls with
  | [] => ([], [], flags)
  | url :: rest =>
      let v := default true (flags !! i) in
      let '(l, urls_to_remove, flags) := checkbox_loop (S i) rest (<[i := v]> flags) in
      (st_checkbox i :: l, if v then urls_to_remove else url :: urls_to_remove, flags)
  end.

(** Lines 177-179. *)
Definition remove_unchecked (urls_to_remove urls : list text) : list text :=
  fold_left (fun l url => if list_in url l then list_remove url l else l)
    urls_to_remove urls.

(** Lines 183-189, the list part. *)
Definition add_url (new_url : text) (urls : list text) : list text :=
  if truthy new_url then
    if list_in new_url urls then urls else urls ++ [new_url]
  else urls.

(** A part of the script: what it shows, the state it leaves, and whether
    the run stops there. *)
Definition block : Type := session_state -> list ui * session_state * option flow.

Definition then_ (b1 b2 : block) : block := fun s =>
  let '(l1, s1, h1) := b1 s in
  match h1 with
  | Some h => (l1, s1, Some h)
  | None => let '(l2, s2, h2) := b2 s1 in (l1 ++ l2, s2, h2)
  end.

Definition set_discovered_urls (urls : list text) (s : session_state) :=
  {| discovered_urls := Some urls; url_ := url_ s;
     search_history := search_history s; objects := objects s |}.

Definition set_url_ (flags : gmap nat bool) (s : session_state) :=
  {| discovered_urls := discovered_urls s; url_ := flags;
     search_history := search_history s; objects := objects s |}.

(** Lines 46-93: the input widgets of the first tab. *)
Definition search_form (w : inputs) : block := fun s =>
  ([st_header (txt "Search for Products");
    st_subheader (txt "Product Category/Group");
    st_text_input (txt "Enter the product category or group:");
    st_text_input (txt "Enter the product name:");
    st_subheader (txt "Enter Technical Specification");
    st_text_area (txt "Technical specifications for the product you're looking for:");
    st_subheader (txt "Price Calculation Objective");
    st_selectbox (txt "Select how you want prices to be calculated:")]
   ++ (if objective_eqb (price_calc_objective w) obj_none then []
       else st_info (txt "Products will be evaluated based on "
                     ++ objective_label (price_calc_objective w))
            :: (if objective_eqb (price_calc_objective w) obj_unit
                then [st_text_input (txt "Specify unit type (e.g., tablet, pill, piece):")]
                else [])),
   s, None).

(** Lines 144-157.  The button is disabled while the category or the name
    is empty. *)
Definition discover_step (wd : world) (w : inputs) : block := fun s =>
  let enabled := truthy (product_category w) && truthy (product_name w) in
  let button_ := [st_button (txt "Discover Product URLs")] in
  match pressed w with
  | Some Discover =>
      if enabled then
        if negb (truthy (product_category w)) || negb (truthy (product_name w)) then
          (button_ ++ [st_warning (txt "Please enter both product category and product name to continue.") None],
           s, Some Stopped)
        else
          let r := discover_product_urls
                     (responses_parse wd (product_category w) (product_name w)
                        (tech_spec w)) in
          match outcome r with
          | Raise e => (button_ ++ log r, s, Some (Crashed e))
          | Ok [] =>
              (button_ ++ log r ++
               [st_warning (txt "Could not discover any relevant URLs. Try modifying your search criteria.") None],
               set_discovered_urls [] s, None)
          | Ok discovered =>
              (button_ ++ log r ++
               [st_success (txt "Found " ++ str_nat (length discovered)
                            ++ txt " relevant URLs for " ++ product_name w)],
               set_discovered_urls discovered s, None)
          end
      else (button_, s, None)
  | _ => (button_, s, None)
  end.

(** Lines 160-189. *)
Definition manage_urls (w : inputs) : block := fun s =>
  match discovered_urls s with
  | Some (u :: us) =>
      let '(boxes, urls_to_remove, flags) := checkbox_loop 0 (u :: us) (url_ s) in
      let urls := remove_unchecked urls_to_remove (u :: us) in
      let head := st_subheader (txt "Discovered URLs") :: boxes
                  ++ [st_text_input (txt "Add new URL:"); st_button (txt "Add URL")] in
      let s := set_url_ flags (set_discovered_urls urls s) in
      match pressed w with
      | Some AddURL =>
          if truthy (new_url w) then
            if negb (list_in (new_url w) urls) then
              (head ++ [st_success (txt "Added " ++ new_url w ++ txt " to the list")],
               set_discovered_urls (add_url (new_url w) urls) s, Some Rerun)
            else
              (head ++ [st_info (new_url w ++ txt " is already in the list")], s, None)
          else (head, s, None)
      | _ => (head, s, None)
      end
  | _ => ([], s, None)
  end.

Definition set_objects (objs : list (list json)) (s : session_state) :=
  {| discovered_urls := discovered_urls s; url_ := url_ s;
     search_history := search_history s; objects := objs |}.

Definition append_history (e : history_entry) (s : session_state) :=
  {| discovered_urls := discovered_urls s; url_ := url_ s;
     search_history := Some (default [] (search_history s) ++ [e]);
     objects := objects s |}.

(** Lines 351-404: what pressing "Analyze Product Prices" does, [urls]
    being [st.session_state.discovered_urls]. *)
Definition run_analysis (wd : world) (w : inputs) (urls : list text) : block :=
  fun s =>
  let all_products := length (objects s) in
  let s := set_objects (objects s ++ [[]]) s in
  match active_urls urls (url_ s) with
  | [] =>
      ([st_warning (txt "No URLs selected. Please select at least one URL.") None],
       s, Some Stopped)
  | active =>
      let chat i url :=
        chat_completions wd i (product_category w) (product_name w)
          (tech_spec w) url in
      let '(l, objs, o) := analyze_loop chat 0 active all_products (objects s) in
      let s := set_objects objs s in
      match o with
      | Raise e => (l, s, Some (Crashed e))
      | Ok _ =>
          match default [] (objs !! all_products) with
          | [] =>
              (l ++ [st_error (txt "No products found matching your specifications.") None],
               s, None)
          | products =>
              let history_entry :=
                {| timestamp := strftime (localtime wd);
                   entry_category := product_category w;
                   entry_product_name := product_name w;
                   entry_tech_spec := tech_spec w;
                   entry_price_calc_objective := price_calc_objective w;
                   results := all_products |} in
              (l ++ [call_display_results products],
               append_history history_entry s, None)
          end
      end
  end.

(** Lines 349-404. *)
Definition analyze_step (wd : world) (w : inputs) : block := fun s =>
  match discovered_urls s with
  | Some (u :: us) =>
      match pressed w with
      | Some Analyze =>
          let '(l, s, h) := run_analysis wd w (u :: us) s in
          (st_button (txt "Analyze Product Prices") :: l, s, h)
      | _ => ([st_button (txt "Analyze Product Prices")], s, None)
      end
  | _ => ([], s, None)
  end.

(** Lines 9-20. *)
Definition page_head : list ui :=
  [st_set_page_config;
   st_title (128269%N :: txt " Lithuanian Market Product Analyzer");
   st_markdown (txt "
This application analyzes Lithuanian market products based on a technical specification.
It queries the OpenAI API to gather structured product information and evaluates each product.
")].

(** The text of lines 24-34. *)
Definition key_not_found : text :=
  txt "
    " ++ [9888%N; 65039%N] ++ jtxt " OpenAI API key not found in secrets.

    1. Create a `.streamlit/secrets.toml` file with your OpenAI API key:
    ```
    [config]
    openai_api_key = 'your_openai_api_key'
    ```

    2. Restart the application.
    ".

(** Line 23, [st.secrets.get("config", {})]: reading the secrets raises
    when there is no secrets file. *)
Definition secrets_get_config (wd : world) : res (list (text * text)) :=
  match secrets wd with
  | None => Raise FileNotFoundError
  | Some tables => Ok (default [] (dict_get (txt "config") tables))
  end.

(** Line 23 finds the key. *)
Definition api_key_configured (wd : world) : bool :=
  match secrets_get_config wd with
  | Ok config => dict_has (txt "openai_api_key") config
  | Raise _ => false
  end.

(** One run of the script as far as the end of the first tab, the call of
    [display_results] at line 402 logged and not carried out.  What
    Streamlit itself reports about an exception is not part of the log.
    The texts this part shows are made of the widget values, the URLs of
    the list and the messages of exceptions; they are taken to be
    encodable, and unlike the drawing of products this part is not modelled
    as raising [UnicodeEncodeError]. *)
Definition script (wd : world) (w : inputs) (s : session_state)
  : list ui * session_state * flow :=
  match secrets_get_config wd with
  | Raise e => (page_head, s, Crashed e)
  | Ok config =>
      if dict_has (txt "openai_api_key") config then
        let '(l, s, h) :=
          then_ (search_form w)
            (then_ (discover_step wd w)
               (then_ (manage_urls w) (analyze_step wd w))) s in
        (page_head ++ st_tabs :: l, s, default Finished h)
      else (page_head ++ [st_error key_not_found None], s, Stopped)
  end.

(** A user ticks or clears the checkbox drawn at position [i]; Streamlit
    stores the value under [url_i] and runs the script. *)
Definition set_checkbox (i : nat) (v : bool) (s : session_state) : session_state :=
  set_url_ (<[i := v]> (url_ s)) s.

End Program.

(** ** Showing a product (lines 284-300, repeated at 313-328, 418-434,
    447-462 and 509-525) *)

Section Display.

(** [str(v)] for a decoded value that is not a [str]. *)
Variable repr : json -> text.

Definition py_str (v : json) : text :=
  match v with
  | JStr s => s
  | _ => repr v
  end.

Definition price_per_key (o : objective) : text :=
  txt "price_per_" ++ objective_key o.

(** Lines 290-298. *)
Definition unit_display (o : objective) (product : list (text * json)) : text :=
  match (if objective_eqb o obj_unit then dict_get (txt "unit_type") product
         else None) with
  | Some unit_type => txt "/" ++ py_str unit_type
  | None =>
      if objective_eqb o obj_kg then txt "/kg"
      else if objective_eqb o obj_liter then txt "/L"
      else if objective_eqb o obj_package then txt "/pkg"
      else []
  end.

(** Lines 287-300: what is added to [product_title], if anything. *)
Definition price_calc_title (o : objective) (product : list (text * json))
  : option text :=
  if negb (objective_eqb o obj_none) then
    match dict_get (price_per_key o) product with
    | Some price =>
        Some (txt " (" ++ [8364%N] ++ py_str price ++ unit_display o product ++ txt ")")
    | None => None
    end
  else None.

End Display.

(** ** Vocabulary of the statements *)

(** The strings a sequence of items denotes. *)
Inductive matches : list item -> text -> Prop :=
| matches_nil : matches [] []
| matches_one a p c m :
    atom_ok a c = true -> matches p m -> matches (One a :: p) (c :: m)
| matches_star a p w m :
    Forall (fun c => atom_ok a c = true) w -> matches p m ->
    matches (Star a :: p) (w ++ m).

Definition blank (w : text) : Prop := Forall (fun c => is_space c = true) w.

(** An opening bracket, an opening brace, anything, a closing brace and a
    closing bracket, with white space allowed between bracket and brace. *)
Definition array_of_objects_shape (m : text) : Prop :=
  exists w1 body w2,
    m = txt "[" ++ w1 ++ txt "{" ++ body ++ txt "}" ++ w2 ++ txt "]"
    /\ blank w1 /\ blank w2.

(** An object that opens with the key [products] whose value is bracketed
    and closes the object. *)
Definition products_object_shape (m : text) : Prop :=
  exists w1 w2 w3 body w4,
    m = txt "{" ++ w1 ++ jtxt "'products'" ++ w2 ++ txt ":" ++ w3
        ++ txt "[" ++ body ++ txt "]" ++ w4 ++ txt "}"
    /\ blank w1 /\ blank w2 /\ blank w3 /\ blank w4.

Definition json_like (m : text) : Prop :=
  array_of_objects_shape m \/ products_object_shape m.

(** [m] is a part of [s] of one of the two shapes; no part of [s] that
    starts further left has one, and none that starts at the same place is
    longer. *)
Definition first_json_like (s m : text) : Prop :=
  exists pre post, s = pre ++ m ++ post /\ json_like m /\
    forall pre' m' post', s = pre' ++ m' ++ post' -> json_like m' ->
      length pre < length pre'
      \/ (length pre = length pre' /\ length m' <= length m).

Definition no_json_like (s : text) : Prop :=
  forall pre m post, s = pre ++ m ++ post -> ~ json_like m.

(** The records one extraction request contributes to a run. *)
Definition extracted (loads : text -> res json) (reply : res (option text))
  : list json :=
  match outcome (analyze_product_prices loads reply) with
  | Ok products => products
  | Raise _ => []
  end.

(** A service that fails on the first request of a run and answers the
    second with one record. *)
Definition first_fails : nat -> text -> res (option text) := fun i _ =>
  match i with
  | O => Raise (ServiceError (txt "Connection error."))
  | _ => Ok (Some (jtxt "[{'product_name':'X','product_price':9.99}]"))
  end.

Definition record_X : json :=
  JObj [(txt "product_name", JStr (txt "X"));
        (txt "product_price", JFloat 999 (-2))].

(** A warning was put on the page. *)
Definition warns {A} (r : M A) : Prop :=
  exists m e, In (st_warning m e) (log r).

Definition is_text (v : json) : bool :=
  match v with JStr _ => true | _ => false end.

Definition is_number (v : json) : bool :=
  match v with JInt _ | JFloat _ _ => true | _ => false end.

(** The ProductRecord of the data model: an object whose members are among
    the nine fields of the record, each of the type the data model gives
    it. *)
Definition ProductRecord_field (k : text) (v : json) : bool :=
  if list_in k [txt "provider"; txt "provider_website"; txt "provider_url";
                txt "product_name"; txt "product_sku"; txt "evaluation"]
  then is_text v
  else if list_in k [txt "product_price"; txt "price_per_unit"] then is_number v
  else if text_eqb k (txt "product_properties") then
    match v with
    | JObj d => forallb (fun kv => is_text kv.2) d
    | _ => false
    end
  else false.

Definition ProductRecord_shape (v : json) : bool :=
  match v with
  | JObj d => forallb (fun kv => ProductRecord_field kv.1 kv.2) d
  | _ => false
  end.

Definition twenty_one_urls : list text := replicate 21 (txt "https://a.lt").

(** A configured world whose extraction service answers every request with
    one record that names the URL it was asked about. *)
Definition echo_world : world :=
  {| secrets := Some [(txt "config", [(txt "openai_api_key", txt "sk")])];
     responses_parse := fun _ _ _ =>
       Ok (Some [txt "https://a.lt"; txt "https://b.lt"; txt "https://c.lt"]);
     chat_completions := fun _ _ _ _ url =>
       Ok (Some (jtxt "[{'provider_url':'" ++ url ++ jtxt "'}]"));
     time := 1741496701%N;
     localtime := {| tm_year := 2025; tm_mon := 3; tm_mday := 9;
                     tm_hour := 7; tm_min := 5; tm_sec := 1;
                     tm_isdst := false |}%N |}.

(** The same world with a secrets file that lacks the credential. *)
Definition keyless_world : world :=
  {| secrets := Some [];
     responses_parse := responses_parse echo_world;
     chat_completions := chat_completions echo_world;
     time := time echo_world;
     localtime := localtime echo_world |}.

(** The same world with no secrets file: the application as it is before
    step 1 of the message of lines 24-34 is carried out. *)
Definition no_secrets_world : world :=
  {| secrets := None;
     responses_parse := responses_parse echo_world;
     chat_completions := chat_completions echo_world;
     time := time echo_world;
     localtime := localtime echo_world |}.

Definition vitamins (b : option button) : inputs :=
  {| product_category := txt "Vitamins"; product_name := txt "Vitamin D";
     tech_spec := txt "1000 IU"; price_calc_objective := obj_unit;
     custom_calc_unit := []; new_url := []; pressed := b |}.

Definition found_at (url : string) : json :=
  JObj [(txt "provider_url", JStr (txt url))].

(** The arguments of the calls of [display_results] in a run. *)
Definition displayed (l : list ui) : list (list json) :=
  omap (fun u => match u with call_display_results p => Some p | _ => None end) l.

(** ** Sessions over several runs *)

(** One interaction: the checkboxes the user changed, the world at the
    time, and the widget values of the run that follows. *)
Record interaction := {
  ticks : list (nat * bool);
  at_world : world;
  with_inputs : inputs }.

Definition tick (s : session_state) (t : nat * bool) : session_state :=
  set_checkbox t.1 t.2 s.

Definition interact (loads : text -> res json) (s : session_state)
    (x : interaction) : list ui * session_state * flow :=
  script loads (at_world x) (with_inputs x) (fold_left tick (ticks x) s).

Definition session_after (loads : text -> res json) (xs : list interaction)
    (s : session_state) : session_state :=
  fold_left (fun s x => (interact loads s x).1.2) xs s.

(** What an entry of the history says, its results looked up in the
    session. *)
Record recorded_run := {
  at_time : text;
  for_category : text;
  for_product : text;
  for_spec : text;
  for_objective : objective;
  found : option (list json) }.

Definition view (s : session_state) (e : history_entry) : recorded_run :=
  {| at_time := timestamp e;
     for_category := entry_category e;
     for_product := entry_product_name e;
     for_spec := entry_tech_spec e;
     for_objective := entry_price_calc_objective e;
     found := objects s !! results e |}.

Definition history_view (s : session_state) : list recorded_run :=
  map (view s) (default [] (search_history s)).

(** The run of interaction [x] showed [products]. *)
Definition run_record (wd : world) (w : inputs) (products : list json)
  : recorded_run :=
  {| at_time := strftime (localtime wd);
     for_category := product_category w;
     for_product := product_name w;
     for_spec := tech_spec w;
     for_objective := price_calc_objective w;
     found := Some products |}.

(** The runs that showed results, with what they showed, in order. *)
Fixpoint shown_along (loads : text -> res json) (s : session_state)
    (xs : list interaction) : list recorded_run :=
  match xs with
  | [] => []
  | x :: xs' =>
      map (run_record (at_world x) (with_inputs x)) (displayed (interact loads s x).1.1)
      ++ shown_along loads (interact loads s x).1.2 xs'
  end.

(** The records of a run: those of each active URL in turn. *)
Definition aggregate (loads : text -> res json) (wd : world) (w : inputs)
    (urls : list text) (s : session_state) : list json :=
  concat (imap (fun i url =>
                  extracted loads
                    (chat_completions wd i (product_category w) (product_name w)
                       (tech_spec w) url))
            (active_urls urls (url_ s))).

(** The order of [str] values: by code point, a proper prefix first. *)
Fixpoint text_lt (a b : text) : Prop :=
  match a with
  | [] => match b with [] => False | _ :: _ => True end
  | x :: a' =>
      match b with
      | [] => False
      | y :: b' => (x < y)%N \/ (x = y /\ text_lt a' b')
      end
  end.

Definition text_le (a b : text) : Prop := text_lt a b \/ a = b.

(** The order of clock readings. *)
Definition tm_fields (t : struct_time) : list N :=
  [tm_year t; tm_mon t; tm_mday t; tm_hour t; tm_min t; tm_sec t].

Definition tm_le (a b : struct_time) : Prop :=
  text_le (tm_fields a) (tm_fields b).

(** A reading with a year of four digits and the other fields of two. *)
Definition tm_plain (t : struct_time) : Prop :=
  (1000 <= tm_year t < 10000 /\ tm_mon t < 100 /\ tm_mday t < 100
   /\ tm_hour t < 100 /\ tm_min t < 100 /\ tm_sec t < 100)%N.

(** Three interactions, the last an hour after the others: the user
    discovers, analyses, and analyses again. *)
Definition later_world : world :=
  {| secrets := secrets echo_world;
     responses_parse := responses_parse echo_world;
     chat_completions := chat_completions echo_world;
     time := 1741500301%N;
     localtime := {| tm_year := 2025; tm_mon := 3; tm_mday := 9;
                     tm_hour := 8; tm_min := 5; tm_sec := 1;
                     tm_isdst := false |}%N |}.

Definition three_interactions : list interaction :=
  [ {| ticks := []; at_world := echo_world; with_inputs := vitamins (Some Discover) |};
    {| ticks := []; at_world := echo_world; with_inputs := vitamins (Some Analyze) |};
    {| ticks := []; at_world := later_world; with_inputs := vitamins (Some Analyze) |} ].

(** The end of daylight saving time in Vilnius on 26 October 2025: at
    04:00 the local clock goes back to 03:00.  A run at 03:30 summer time
    and a run forty minutes later, at 03:10 standard time. *)
Definition summer_world : world :=
  {| secrets := secrets echo_world;
     responses_parse := responses_parse echo_world;
     chat_completions := chat_completions echo_world;
     time := 1761438600%N;
     localtime := {| tm_year := 2025; tm_mon := 10; tm_mday := 26;
                     tm_hour := 3; tm_min := 30; tm_sec := 0;
                     tm_isdst := true |}%N |}.

Definition winter_world : world :=
  {| secrets := secrets echo_world;
     responses_parse := responses_parse echo_world;
     chat_completions := chat_completions echo_world;
     time := 1761441000%N;
     localtime := {| tm_year := 2025; tm_mon := 10; tm_mday := 26;
                     tm_hour := 3; tm_min := 10; tm_sec := 0;
                     tm_isdst := false |}%N |}.

Definition clock_steps_back : list interaction :=
  [ {| ticks := []; at_world := summer_world; with_inputs := vitamins (Some Discover) |};
    {| ticks := []; at_world := summer_world; with_inputs := vitamins (Some Analyze) |};
    {| ticks := []; at_world := winter_world; with_inputs := vitamins (Some Analyze) |} ].

(** The query of [vitamins] with a unit label typed in. *)
Definition vitamins_per (unit_label : string) (b : option button) : inputs :=
  {| product_category := product_category (vitamins b);
     product_name := product_name (vitamins b);
     tech_spec := tech_spec (vitamins b);
     price_calc_objective := price_calc_objective (vitamins b);
     custom_calc_unit := txt unit_label;
     new_url := new_url (vitamins b); pressed := b |}.

(** The entries of the history refer to list objects that exist. *)
Definition history_ok (s : session_state) : Prop :=
  Forall (fun e => results e < length (objects s)) (default [] (search_history s)).

(** A part of the script that, run in world [wd] on inputs [w], adds to the
    history exactly the results it shows and leaves the older entries and
    what they refer to as they were. *)
Definition appends_what_it_shows (wd : world) (w : inputs) (b : block) : Prop :=
  forall s, history_ok s ->
    history_ok (b s).1.2
    /\ history_view (b s).1.2
       = history_view s ++ map (run_record wd w) (displayed (b s).1.1).

(** A sequence in which every starred class is followed by a literal
    outside the class: the text it matches at a given place is unique. *)
Fixpoint determinate (p : list item) : bool :=
  match p with
  | [] => true
  | One _ :: p' => determinate p'
  | Star a :: p' =>
      match p' with
      | One (Lit c) :: _ => negb (atom_ok a c) && determinate p'
      | _ => false
      end
  end.

(** The first character of what [q] matches occurs nowhere else in it. *)
Definition head_once (c : char) (q : list item) : Prop :=
  forall t, matches q t -> exists t0, t = c :: t0 /\ ~ In c t0.

(** ** Drawing the results (lines 274-345) and the history tab (lines
    481-529) *)



(** What these two parts put on the page. *)
Inductive drawn :=
| d_header (m : text)
| d_subheader (m : text)
| d_info (m : text)
| d_error (m : text)
| d_expander (title : text)
| d_markdown (m : text)
| d_write (v : json)
| d_json (v : list json).

(** A text that can be encoded as UTF-8: no code point of it is a
    surrogate.  A [str] can hold a lone surrogate, and [json.loads] yields
    one from an escape such as [\ud800]. *)
Definition encodable (m : text) : bool :=
  forallb (fun c => (c <? 55296)%N || (57343 <? c)%N) m.

(** The text a call hands to the page.  [st.write] shows a [str] as
    markdown and the other values through [str] or [json.dumps], which
    escape a surrogate; [st.json] goes through [json.dumps] as well. *)
Definition drawn_text (u : drawn) : text :=
  match u with
  | d_header m | d_subheader m | d_info m | d_error m | d_expander m
  | d_markdown m => m
  | d_write (JStr m) => m
  | d_write _ | d_json _ => []
  end.

(** The calls [l], made in this order and followed by the outcome [r],
    as they reach the page: a call whose text cannot be encoded raises
    [UnicodeEncodeError], which ends the drawing there. *)
Fixpoint emit (l : list drawn) (r : res ()) : list drawn * res () :=
  match l with
  | [] => ([], r)
  | u :: l' =>
      if encodable (drawn_text u) then
        let '(shown, r') := emit l' r in (u :: shown, r')
      else ([], Raise UnicodeEncodeError)
  end.


Section Rendering.

(** [str(v)] for a decoded value that is not a [str]. *)
Variable repr : json -> text.

(** [product.get(k, fallback)] inside an f-string. *)
Definition get_str (k fallback : string) (product : list (text * json)) : text :=
  py_str repr (default (JStr (txt fallback)) (dict_get (txt k) product)).







(** Lines 489-495: the title of an entry of the history. *)
Definition entry_title (e : history_entry) : text :=
  timestamp e ++ txt " - " ++ txt "[" ++ entry_category e ++ txt "]" ++ txt " "
  ++ entry_product_name e ++ txt " "
  ++ (if negb (objective_eqb (entry_price_calc_objective e) obj_none)
      then txt " (Price per " ++ objective_key (entry_price_calc_objective e)
           ++ txt ")"
      else []).

(** Lines 507-529 for one product of an entry: the calls made, as far as an
    [AttributeError]; [search_history_tab] passes them through [emit]. *)
Definition draw_recorded_product (o : objective) (j : nat) (product : json)
  : list drawn * res () :=
  match product with
  | JObj d =>
      ([d_markdown (txt "**" ++ str_nat (j + 1) ++ txt ". "
                    ++ get_str "product_name" "Unknown Product" d ++ txt "** - "
                    ++ [8364%N] ++ get_str "product_price" "N/A" d
                    ++ default [] (price_calc_title repr o d));
        d_markdown (txt "Provider: " ++ get_str "provider" "N/A" d
                    ++ txt " | [View Product](" ++ get_str "provider_url" "#" d
                    ++ txt ")")],
       Ok ())
  | _ => ([], Raise AttributeError)
  end.

Fixpoint draw_recorded_products (o : objective) (j : nat) (products : list json)
  : list drawn * res () :=
  match products with
  | [] => ([], Ok ())
  | product :: rest =>
      let '(l, r) := draw_recorded_product o j product in
      match r with
      | Raise e => (l, Raise e)
      | Ok _ =>
          let '(l', r') := draw_recorded_products o (S j) rest in
          (l ++ l', r')
      end
  end.

(** Lines 487-529 for one entry, [products] being the list its [results]
    refers to. *)
Definition draw_entry (e : history_entry) (products : list json)
  : list drawn * res () :=
  let o := entry_price_calc_objective e in
  let head :=
    [d_expander (entry_title e);
     d_markdown (txt "**Category:** " ++ entry_category e);
     d_markdown (txt "**Product:** " ++ entry_product_name e);
     d_markdown (txt "**Search Query:**" ++ [10%N] ++ entry_tech_spec e)]
    ++ (if negb (objective_eqb o obj_none)
        then [d_markdown (txt "**Price Calculation:** Price per " ++ objective_key o)]
        else [])
    ++ [d_markdown (txt "**Results:** " ++ str_nat (length products)
                    ++ txt " products found")] in
  let '(l, r) := draw_recorded_products o 0 products in
  (head ++ l, r).

Fixpoint draw_entries (objs : list (list json)) (entries : list history_entry)
  : list drawn * res () :=
  match entries with
  | [] => ([], Ok ())
  | e :: rest =>
      let '(l, r) := draw_entry e (default [] (objs !! results e)) in
      match r with
      | Raise e => (l, Raise e)
      | Ok _ =>
          let '(l', r') := draw_entries objs rest in
          (l ++ l', r')
      end
  end.

(** Lines 481-529: the calls of the second tab, the newest entry first, as
    far as an [AttributeError]. *)
Definition search_history_tab_calls (s : session_state) : list drawn * res () :=
  match search_history s with
  | None | Some [] =>
      ([d_header (txt "Search History");
        d_info (txt "No search history yet. Search for products to see your history here.")],
       Ok ())
  | Some entries =>
      let '(l, r) := draw_entries (objects s) (reverse entries) in
      (d_header (txt "Search History") :: l, r)
  end.

(** Lines 481-529. *)
Definition search_history_tab (s : session_state) : list drawn * res () :=
  let '(l, r) := search_history_tab_calls s in
  emit l r.

End Rendering.

(** A product as these two parts can draw it: an object, and for
    [display_results] one whose [product_properties], when it has a true
    value, is an object. *)
Definition is_object (v : json) : bool :=
  match v with JObj _ => true | _ => false end.


Definition expanders (l : list drawn) : list text :=
  omap (fun u => match u with d_expander t => Some t | _ => None end) l.

(** Every product of every entry of the history is an object. *)
Definition recorded_objects (s : session_state) : bool :=
  forallb (fun e => forallb is_object (default [] (objects s !! results e)))
    (default [] (search_history s)).

(** A product none of whose strings that these two parts can show holds a
    lone surrogate: its string members, and the keys and string members of
    its object members. *)
Definition clean_member (v : json) : bool :=
  match v with
  | JStr m => encodable m
  | _ => true
  end.

Definition clean_object (d : list (text * json)) : bool :=
  forallb (fun kv => encodable kv.1 && clean_member kv.2) d.

Definition clean_product (v : json) : bool :=
  match v with
  | JObj d =>
      forallb (fun kv => clean_member kv.2
                         && match kv.2 with
                            | JObj ps => clean_object ps
                            | _ => true
                            end) d
  | _ => true
  end.

(** The same of the history: the texts of its entries and their products. *)
Definition clean_entry (e : history_entry) : bool :=
  encodable (timestamp e) && encodable (entry_category e)
  && encodable (entry_product_name e) && encodable (entry_tech_spec e).

Definition clean_history (s : session_state) : bool :=
  forallb (fun e => clean_entry e
                    && forallb clean_product (default [] (objects s !! results e)))
    (default [] (search_history s)).

(** ** A whole run

    The first tab as far as line 404, the call of [display_results] at line
    402 carried out, then the second tab.  The call is the last thing the
    first tab does, and a run that stops, reruns or raises before the end of
    the first tab draws nothing further.  The third tab and the footer only
    draw fixed text.  The session is left as it is when the run ends,
    however it ends. *)


Section Page.

Variable loads : text -> res json.
Variable repr : json -> text.



End Page.


(** The calls of [l] hand encodable text to the page. *)
Definition encodable_calls (l : list drawn) : bool :=
  forallb (fun u => encodable (drawn_text u)) l.

(** A discovery and an analysis of the query of [vitamins] with a unit
    label typed in. *)
Definition asking_per (unit_label : string) : list interaction :=
  [ {| ticks := []; at_world := echo_world;
       with_inputs := vitamins_per unit_label (Some Discover) |};
    {| ticks := []; at_world := echo_world;
       with_inputs := vitamins_per unit_label (Some Analyze) |} ].



(** * Properties *)

(** ** The pattern search *)

Lemma match_here_star a p s :
  match_here (Star a :: p) s =
  match s with
  | c :: s' =>
      if atom_ok a c then
        match match_here (Star a :: p) s' with
        | Some m => Some (c :: m)
        | None => match_here p s
        end
      else match_here p s
  | [] => match_here p s
  end.
Proof. destruct s; reflexivity. Qed.

Lemma re_search_unfold alts s :
  re_search alts s =
  match match_alt alts s with
  | Some m => Some m
  | None => match s with [] => None | _ :: s' => re_search alts s' end
  end.
Proof. destruct s; reflexivity. Qed.

Lemma match_here_sound p : forall s m,
  match_here p s = Some m -> matches p m /\ exists r, s = m ++ r.
Proof.
  induction p as [|[a|a] p IH]; intros s m.
  - intros [= <-]. split; [constructor | by exists s].
  - simpl. destruct s as [|c s']; [done|].
    destruct (atom_ok a c) eqn:Hc; [|done].
    destruct (match_here p s') as [m'|] eqn:Hm; [|done].
    intros [= <-]. destruct (IH _ _ Hm) as [? [r ->]].
    split; [by constructor | by exists r].
  - revert m. induction s as [|c s' IHs]; intros m; rewrite match_here_star.
    + intros Hm. destruct (IH _ _ Hm) as [? Hr].
      split; [by apply (matches_star a p []) | done].
    + destruct (atom_ok a c) eqn:Hc.
      * destruct (match_here (Star a :: p) s') as [m'|] eqn:Hs.
        -- intros [= <-]. destruct (IHs _ eq_refl) as [Hm' [r ->]].
           inversion Hm' as [| |? ? w m0 Hw Hm0]; subst.
           split; [|by exists r].
           apply (matches_star a p (c :: w)); [by constructor | done].
        -- intros Hm. destruct (IH _ _ Hm) as [? Hr].
           split; [by apply (matches_star a p []) | done].
      * intros Hm. destruct (IH _ _ Hm) as [? Hr].
        split; [by apply (matches_star a p []) | done].
Qed.

Lemma match_here_star_skip a p s :
  is_Some (match_here p s) -> is_Some (match_here (Star a :: p) s).
Proof.
  intros Hp. rewrite match_here_star. destruct s as [|c s']; [done|].
  destruct (atom_ok a c); [|done].
  by destruct (match_here (Star a :: p) s').
Qed.

Lemma match_here_complete p m :
  matches p m -> forall r, is_Some (match_here p (m ++ r)).
Proof.
  induction 1 as [|a p c m Hc _ IH|a p w m Hw _ IH]; intros r.
  - by eexists.
  - simpl. rewrite Hc. destruct (IH r) as [m' ->]. by eexists.
  - rewrite <- app_assoc. induction Hw as [|c w Hc _ IHw].
    + apply match_here_star_skip, IH.
    + rewrite <- app_comm_cons, match_here_star, Hc.
      destruct IHw as [m' ->]. by eexists.
Qed.

Lemma match_alt_sound alts s m :
  match_alt alts s = Some m ->
  (exists p, In p alts /\ matches p m) /\ exists r, s = m ++ r.
Proof.
  induction alts as [|p alts IH]; simpl; [done|].
  destruct (match_here p s) as [m'|] eqn:Hp.
  - intros [= <-]. destruct (match_here_sound _ _ _ Hp) as [? ?].
    split; [exists p; auto | done].
  - intros H. destruct (IH H) as [(q & ? & ?) ?]. split; [exists q; auto | done].
Qed.

Lemma match_alt_none alts s :
  match_alt alts s = None ->
  forall p m r, In p alts -> s = m ++ r -> ~ matches p m.
Proof.
  induction alts as [|q alts IH]; simpl; [by intros _ p m r []|].
  destruct (match_here q s) as [m'|] eqn:Hq; [done|].
  intros Halts p m r [<-|Hin] -> Hm.
  - destruct (match_here_complete _ _ Hm r) as [x Hx]. congruence.
  - by apply (IH Halts p m r).
Qed.

(** [re.search] returns what the alternatives match at the first place
    where they match anything. *)
Lemma re_search_some alts : forall s m,
  re_search alts s = Some m ->
  exists pre post, s = pre ++ m ++ post /\
    match_alt alts (m ++ post) = Some m /\
    forall pre' m' post' p, s = pre' ++ m' ++ post' -> In p alts ->
      matches p m' -> length pre <= length pre'.
Proof.
  induction s as [|c s IH]; intros m; rewrite re_search_unfold.
  - destruct (match_alt alts []) as [m'|] eqn:Ha; [|done].
    intros [= <-]. destruct (match_alt_sound _ _ _ Ha) as [? [r Hr]].
    exists [], r. split_and!; [done | by rewrite <- Hr | intros; simpl; lia].
  - destruct (match_alt alts (c :: s)) as [m'|] eqn:Ha.
    + intros [= <-]. destruct (match_alt_sound _ _ _ Ha) as [? [r Hr]].
      exists [], r. split_and!; [done | by rewrite <- Hr | intros; simpl; lia].
    + intros Hs. destruct (IH _ Hs) as (pre & post & -> & Hm & Hleft).
      exists (c :: pre), post. split_and!; [done | done |].
      intros pre' m' post' p Heq Hin Hm'. destruct pre' as [|c' pre'].
      * by destruct (match_alt_none _ _ Ha p m' post' Hin Heq).
      * simpl in *. injection Heq as -> Heq.
        specialize (Hleft _ _ _ _ Heq Hin Hm'). lia.
Qed.

Lemma re_search_none alts : forall s,
  re_search alts s = None ->
  forall pre m post p, s = pre ++ m ++ post -> In p alts -> ~ matches p m.
Proof.
  induction s as [|c s IH]; rewrite re_search_unfold.
  - destruct (match_alt alts []) as [m'|] eqn:Ha; [done|].
    intros _ pre m post p Heq Hin.
    destruct pre; [|done]. by apply (match_alt_none _ _ Ha p m post).
  - destruct (match_alt alts (c :: s)) as [m'|] eqn:Ha; [done|].
    intros Hs pre m post p Heq Hin. destruct pre as [|c' pre].
    + by apply (match_alt_none _ _ Ha p m post).
    + injection Heq as -> Heq. by apply (IH Hs pre m post p).
Qed.

Lemma matches_app_inv p q : forall m,
  matches (p ++ q) m -> exists x y, m = x ++ y /\ matches p x /\ matches q y.
Proof.
  induction p as [|[a|a] p IH]; intros m H.
  - exists [], m. split_and!; [done | constructor | done].
  - inversion H as [|? ? c m0 Hc Hm|]; subst.
    destruct (IH _ Hm) as (x & y & -> & ? & ?).
    exists (c :: x), y. split_and!; [done | by constructor | done].
  - inversion H as [| |? ? w m0 Hw Hm]; subst.
    destruct (IH _ Hm) as (x & y & -> & ? & ?).
    exists (w ++ x), y. split_and!; [by rewrite app_assoc | by constructor | done].
Qed.

Lemma match_here_app p q : forall s m,
  match_here (p ++ q) s = Some m ->
  exists x mq r, m = x ++ mq /\ s = x ++ r /\ matches p x
                 /\ match_here q r = Some mq.
Proof.
  induction p as [|[a|a] p IH]; intros s m.
  - intros H. exists [], m, s. split_and!; [done | done | constructor | done].
  - simpl. destruct s as [|c s']; [done|].
    destruct (atom_ok a c) eqn:Hc; [|done].
    destruct (match_here (p ++ q) s') as [m'|] eqn:Hm; [|done].
    intros [= <-]. destruct (IH _ _ Hm) as (x & mq & r & -> & -> & ? & ?).
    exists (c :: x), mq, r. split_and!; [done | done | by constructor | done].
  - change ((Star a :: p) ++ q) with (Star a :: (p ++ q)).
    revert m. induction s as [|c s' IHs]; intros m; rewrite match_here_star.
    + intros H. destruct (IH _ _ H) as (x & mq & r & -> & Hs & ? & ?).
      exists x, mq, r. split_and!; [done | done | by apply (matches_star a p []) | done].
    + assert (match_here (p ++ q) (c :: s') = Some m ->
              exists x mq r, m = x ++ mq /\ c :: s' = x ++ r
                /\ matches (Star a :: p) x /\ match_here q r = Some mq) as Hskip.
      { intros H. destruct (IH _ _ H) as (x & mq & r & -> & Hs & ? & ?).
        exists x, mq, r.
        split_and!; [done | done | by apply (matches_star a p []) | done]. }
      destruct (atom_ok a c) eqn:Hc; [|done].
      destruct (match_here (Star a :: p ++ q) s') as [m'|] eqn:Hs; [|done].
      intros [= <-]. destruct (IHs _ eq_refl) as (x & mq & r & -> & -> & Hx & ?).
      inversion Hx as [| |? ? w m0 Hw Hm0]; subst.
      exists (c :: w ++ m0), mq, r. split_and!; [done | done | | done].
      apply (matches_star a p (c :: w)); [by constructor | done].
Qed.

Lemma match_here_star_none a q : forall s,
  match_here (Star a :: q) s = None ->
  forall w r, s = w ++ r -> Forall (fun c => atom_ok a c = true) w ->
    match_here q r = None.
Proof.
  induction s as [|c s' IHs]; rewrite match_here_star; intros H w r Hs Hw.
  - symmetry in Hs. apply app_eq_nil in Hs as [-> ->]. done.
  - destruct w as [|c' w]; simpl in Hs.
    + subst r. destruct (atom_ok a c); [|done].
      by destruct (match_here (Star a :: q) s').
    + injection Hs as <- ->. apply Forall_cons in Hw as [Hc Hw].
      rewrite Hc in H.
      destruct (match_here (Star a :: q) (w ++ r)) eqn:Hs'; [done|].
      by apply (IHs eq_refl w r).
Qed.

(** A greedy star takes the longest run after which the rest matches. *)
Lemma match_here_star_greedy a q : forall s m,
  match_here (Star a :: q) s = Some m ->
  exists w mq r, m = w ++ mq /\ s = w ++ r /\ match_here q r = Some mq
    /\ forall w' r', s = w' ++ r' -> Forall (fun c => atom_ok a c = true) w' ->
         length w < length w' -> match_here q r' = None.
Proof.
  induction s as [|c s' IHs]; intros m; rewrite match_here_star.
  - intros H. exists [], m, []. split_and!; [done | done | done |].
    intros w' r' Hs _ Hlen. symmetry in Hs. apply app_eq_nil in Hs as [-> _].
    simpl in Hlen. lia.
  - destruct (atom_ok a c) eqn:Hc.
    + destruct (match_here (Star a :: q) s') as [m'|] eqn:Hs.
      * intros [= <-].
        destruct (IHs _ eq_refl) as (w & mq & r & -> & -> & Hq & Hlong).
        exists (c :: w), mq, r. split_and!; [done | done | done |].
        intros w' r' Heq Hw' Hlen. destruct w' as [|c' w']; [simpl in Hlen; lia|].
        simpl in Heq. injection Heq as <- Heq. apply Forall_cons in Hw' as [_ Hw'].
        apply (Hlong w' r' Heq Hw'). simpl in Hlen. lia.
      * intros H. exists [], m, (c :: s'). split_and!; [done | done | done |].
        intros w' r' Heq Hw' Hlen. destruct w' as [|c' w']; [simpl in Hlen; lia|].
        simpl in Heq. injection Heq as <- Heq. apply Forall_cons in Hw' as [_ Hw'].
        by apply (match_here_star_none a q s' Hs w' r').
    + intros H. exists [], m, (c :: s'). split_and!; [done | done | done |].
      intros w' r' Heq Hw' Hlen. destruct w' as [|c' w']; [simpl in Hlen; lia|].
      simpl in Heq. injection Heq as <- Heq. apply Forall_cons in Hw' as [Hc' _].
      congruence.
Qed.

Lemma run_then_stop (P : char -> bool) c : forall w1 w2 t1 t2,
  Forall (fun x => P x = true) w1 -> Forall (fun x => P x = true) w2 ->
  P c = false -> w1 ++ c :: t1 = w2 ++ c :: t2 -> w1 = w2 /\ t1 = t2.
Proof.
  induction w1 as [|x w1 IH]; intros [|y w2] t1 t2 H1 H2 Hc Heq; simpl in Heq.
  - by injection Heq.
  - injection Heq as -> _. apply Forall_cons in H2 as [? _]. congruence.
  - injection Heq as -> _. apply Forall_cons in H1 as [? _]. congruence.
  - injection Heq as -> Heq. apply Forall_cons in H1 as [_ H1].
    apply Forall_cons in H2 as [_ H2].
    destruct (IH w2 t1 t2 H1 H2 Hc Heq) as [-> ->]. done.
Qed.

Lemma determinate_unique p : forall m1 m2 r1 r2,
  determinate p = true -> matches p m1 -> matches p m2 ->
  m1 ++ r1 = m2 ++ r2 -> m1 = m2.
Proof.
  induction p as [|[a|a] p IH]; intros m1 m2 r1 r2 Hdet H1 H2 Heq.
  - inversion H1. inversion H2. done.
  - inversion H1 as [|? ? c1 n1 ? Hn1|]; inversion H2 as [|? ? c2 n2 ? Hn2|]; subst.
    simpl in Heq. injection Heq as -> Heq. f_equal. by apply (IH n1 n2 r1 r2).
  - simpl in Hdet. destruct p as [|[[c| |]|] p']; try done.
    apply andb_true_iff in Hdet as [Hc Hp]. apply negb_true_iff in Hc.
    inversion H1 as [| |? ? w1 n1 Hw1 Hn1]; inversion H2 as [| |? ? w2 n2 Hw2 Hn2];
      subst.
    pose proof Hn1 as Hn1'. pose proof Hn2 as Hn2'.
    inversion Hn1' as [|? ? c1 k1 Hc1 _|]; inversion Hn2' as [|? ? c2 k2 Hc2 _|];
      subst.
    simpl in Hc1, Hc2. apply N.eqb_eq in Hc1, Hc2. subst c1 c2.
    rewrite <- !app_assoc in Heq. simpl in Heq.
    destruct (run_then_stop (atom_ok a) c w1 w2 _ _ Hw1 Hw2 Hc Heq) as [-> Hrest].
    f_equal. apply (IH (c :: k1) (c :: k2) r1 r2); [done | done | done |].
    simpl. f_equal. exact Hrest.
Qed.

(** A determinate start, a greedy [.*] and a determinate end whose first
    character it cannot contain again: the match found is the longest the
    sequence has at that place. *)
Lemma match_here_longest p q c s m :
  determinate p = true -> determinate q = true -> head_once c q ->
  match_here (p ++ Star AnyChar :: q) s = Some m ->
  forall m' r', s = m' ++ r' -> matches (p ++ Star AnyChar :: q) m' ->
    length m' <= length m.
Proof.
  intros Hp Hq Hc Hm m' r' Hs Hm'.
  destruct (match_here_app _ _ _ _ Hm) as (x & mq & r & -> & -> & Hx & Hstar).
  destruct (match_here_star_greedy _ _ _ _ Hstar)
    as (w & t & r2 & -> & -> & Ht & Hlong).
  destruct (match_here_sound _ _ _ Ht) as [Ht' [post ->]].
  destruct (matches_app_inv _ _ _ Hm') as (x' & y' & -> & Hx' & Hy').
  inversion Hy' as [| |? ? w' t' _ Ht'']; subst.
  rewrite <- !app_assoc in Hs.
  pose proof (determinate_unique p x x' _ _ Hp Hx Hx' Hs) as <-.
  apply app_inv_head in Hs.
  assert (length w' <= length w) as Hle.
  { destruct (decide (length w < length w')) as [Hlt|]; [|lia].
    assert (match_here q (t' ++ r') = None) as Hnone.
    { apply (Hlong w' (t' ++ r') Hs); [|done]. apply Forall_forall. done. }
    destruct (match_here_complete _ _ Ht'' r') as [? ?]. congruence. }
  unfold text, char in *. rewrite !length_app.
  destruct (decide (length w' = length w)) as [Heq|Hne].
  - apply app_inj_1 in Hs as [<- Hs]; [|done].
    by rewrite (determinate_unique q t' t _ _ Hq Ht'' Ht' (eq_sym Hs)).
  - destruct (Hc _ Ht') as (t0 & -> & _). destruct (Hc _ Ht'') as (t0' & -> & Hnot).
    unfold text, char in *.
    destruct (decide (length w' + length (c :: t0') <= length w + length (c :: t0)))
      as [|Hover]; [lia|].
    exfalso. apply Hnot. simpl in Hover.
    assert ((w ++ (c :: t0) ++ post) !! length w = Some c) as Hat
      by (rewrite lookup_app_r by lia; by rewrite Nat.sub_diag).
    rewrite Hs in Hat. rewrite lookup_app_r in Hat by lia.
    destruct (length w - length w') as [|k] eqn:Hk; [lia|].
    simpl in Hat. rewrite lookup_app_l in Hat by lia.
    apply list_elem_of_In. by apply list_elem_of_lookup_2 in Hat.
Qed.

Ltac invert_matches :=
  repeat match goal with
  | H : matches [] _ |- _ => inversion H; subst; clear H
  | H : matches (_ :: _) _ |- _ => inversion H; subst; clear H
  | H : atom_ok (Lit _) _ = true |- _ => apply N.eqb_eq in H; subst
  end.

Ltac build_matches :=
  repeat first
    [ apply matches_nil
    | apply matches_one; [reflexivity|]
    | apply matches_star; [first [assumption | by apply Forall_forall]|] ].

Lemma array_pattern_shape m :
  matches array_of_objects_pattern m <-> array_of_objects_shape m.
Proof.
  split.
  - intros H. cbv in H. invert_matches.
    eexists _, _, _. split_and!; [reflexivity | assumption | assumption].
  - intros (w1 & body & w2 & -> & H1 & H2).
    cbv [array_of_objects_pattern]. cbn. build_matches.
Qed.

Lemma products_pattern_shape m :
  matches products_object_pattern m <-> products_object_shape m.
Proof.
  split.
  - intros H. cbv in H. invert_matches.
    eexists _, _, _, _, _.
    split_and!; [reflexivity | assumption ..].
  - intros (w1 & w2 & w3 & body & w4 & -> & H1 & H2 & H3 & H4).
    cbv [products_object_pattern lits]. cbn. build_matches.
Qed.

Lemma json_pattern_shape m :
  (exists p, In p json_pattern /\ matches p m) <-> json_like m.
Proof.
  unfold json_like. rewrite <- array_pattern_shape, <- products_pattern_shape.
  split.
  - intros (p & [<-|[<-|[]]] & ?); auto.
  - intros [?|?]; eexists; (split; [|eassumption]); simpl; auto.
Qed.

Lemma head_once_closing c d :
  is_space c = false -> c <> d ->
  head_once c [One (Lit c); Star Space; One (Lit d)].
Proof.
  intros Hc Hd t Ht. invert_matches. eexists. split; [done|].
  intros [Hin|[?|[]]]%in_app_iff; [|done].
  match goal with H : Forall _ _ |- _ => rewrite Forall_forall in H;
    apply list_elem_of_In, H in Hin end.
  simpl in Hin. congruence.
Qed.

Lemma array_pattern_longest s m :
  match_here array_of_objects_pattern s = Some m ->
  forall m' r', s = m' ++ r' -> matches array_of_objects_pattern m' ->
    length m' <= length m.
Proof.
  apply (match_here_longest
           [One (Lit (chr "[")); Star Space; One (Lit (chr "{"))]
           [One (Lit (chr "}")); Star Space; One (Lit (chr "]"))] (chr "}"));
    [done | done |].
  by apply head_once_closing.
Qed.

Lemma products_pattern_longest s m :
  match_here products_object_pattern s = Some m ->
  forall m' r', s = m' ++ r' -> matches products_object_pattern m' ->
    length m' <= length m.
Proof.
  apply (match_here_longest
           ([One (Lit (chr "{")); Star Space] ++
            One (Lit 34%N) :: lits "products" ++ [One (Lit 34%N)] ++
            [Star Space; One (Lit (chr ":")); Star Space; One (Lit (chr "["))])
           [One (Lit (chr "]")); Star Space; One (Lit (chr "}"))] (chr "]"));
    [done | done |].
  by apply head_once_closing.
Qed.

(** What the pattern matches at a place is the longest part of either shape
    that starts there. *)
Lemma match_alt_longest s m :
  match_alt json_pattern s = Some m ->
  forall m' r', s = m' ++ r' -> json_like m' -> length m' <= length m.
Proof.
  unfold json_pattern. cbn [match_alt].
  destruct (match_here array_of_objects_pattern s) as [ma|] eqn:Ha.
  - intros [= <-] m' r' Hs [Hm'|Hm'].
    + apply (array_pattern_longest s ma Ha m' r' Hs). by apply array_pattern_shape.
    + destruct (match_here_sound _ _ _ Ha) as [Hma [r ->]].
      apply array_pattern_shape in Hma as (? & ? & ? & -> & _).
      destruct Hm' as (? & ? & ? & ? & ? & -> & _). discriminate.
  - destruct (match_here products_object_pattern s) as [mp|] eqn:Hp; [|done].
    intros [= <-] m' r' Hs [Hm'|Hm'].
    + apply array_pattern_shape in Hm'. subst s.
      destruct (match_here_complete _ _ Hm' r') as [? ?]. congruence.
    + apply (products_pattern_longest s mp Hp m' r' Hs).
      by apply products_pattern_shape.
Qed.

Lemma re_search_first s m :
  re_search json_pattern s = Some m -> first_json_like s m.
Proof.
  intros H. destruct (re_search_some _ _ _ H) as (pre & post & -> & Hm & Hleft).
  exists pre, post. split_and!; [done | |].
  { apply json_pattern_shape. by destruct (match_alt_sound _ _ _ Hm). }
  intros pre' m' post' Heq Hlike.
  pose proof Hlike as [p [Hp Hpm]]%json_pattern_shape.
  pose proof (Hleft _ _ _ _ Heq Hp Hpm) as Hle.
  destruct (decide (length pre = length pre')) as [Hlen|]; [|left; lia].
  right. split; [done|].
  apply app_inj_1 in Heq as [_ Heq]; [|done].
  by apply (match_alt_longest _ _ Hm m' post').
Qed.

Lemma re_search_nothing s :
  re_search json_pattern s = None -> no_json_like s.
Proof.
  intros H pre m post Heq [p [? ?]]%json_pattern_shape.
  by apply (re_search_none _ _ H pre m post p).
Qed.

(** ** Extraction never raises *)

Lemma extend_nil o objs : extend o [] objs = objs.
Proof. apply list_alter_id. intros l. apply app_nil_r. Qed.

Lemma extend_app o xs ys objs :
  extend o ys (extend o xs objs) = extend o (xs ++ ys) objs.
Proof.
  apply list_eq. intros j. unfold extend. destruct (decide (o = j)) as [->|].
  - rewrite !list_lookup_alter_eq. destruct (objs !! j); simpl; [|done].
    by rewrite app_assoc.
  - by rewrite !list_lookup_alter_ne.
Qed.

Arguments parse_products : simpl never.
Arguments load_response : simpl never.
Arguments analyze_product_prices : simpl never.

Ltac unfold_M :=
  unfold try_except, mbind, M_bind, bind, mret, M_ret, ret, raise, lift, tell in *;
  simpl in *.

Lemma parse_products_cases loads response_text :
  parse_products loads (Some response_text) =
  match load_response loads response_text with
  | Raise e => mkM [] (Raise e)
  | Ok products_data =>
      match products_of products_data with
      | JArr products => mkM [] (Ok products)
      | _ => mkM [] (Ok [])
      end
  end.
Proof.
  unfold parse_products. unfold_M.
  destruct (load_response loads response_text) as [v|e]; simpl; [|done].
  by destruct (products_of v).
Qed.

Lemma analyze_product_prices_cases loads reply :
  analyze_product_prices loads reply =
  match reply with
  | Raise e => mkM [st_error (txt "API request failed: ") (Some e)] (Ok [])
  | Ok None =>
      mkM [st_warning (txt "Could not parse products from URL: ") (Some TypeError)]
          (Ok [])
  | Ok (Some response_text) =>
      match load_response loads response_text with
      | Raise e =>
          mkM [st_warning (txt "Could not parse products from URL: ") (Some e)]
              (Ok [])
      | Ok products_data =>
          match products_of products_data with
          | JArr products => mkM [] (Ok products)
          | _ => mkM [] (Ok [])
          end
      end
  end.
Proof.
  unfold analyze_product_prices. destruct reply as [[response_text|]|e].
  - unfold_M. rewrite parse_products_cases.
    destruct (load_response loads response_text) as [v|e]; simpl; [|done].
    by destruct (products_of v).
  - by unfold_M.
  - by unfold_M.
Qed.

Lemma analyze_product_prices_returns loads reply :
  outcome (analyze_product_prices loads reply) = Ok (extracted loads reply).
Proof.
  unfold extracted. rewrite analyze_product_prices_cases.
  destruct reply as [[response_text|]|e]; simpl; try done.
  destruct (load_response loads response_text) as [v|e]; simpl; [|done].
  by destruct (products_of v).
Qed.

Lemma analyze_loop_extends loads chat urls : forall i all_products objs,
  exists l,
    analyze_loop loads chat i urls all_products objs =
    (l,
     extend all_products
       (concat (imap (fun k url => extracted loads (chat (i + k) url)) urls)) objs,
     Ok ()).
Proof.
  induction urls as [|url urls IH]; intros i all_products objs.
  - exists []. simpl. by rewrite extend_nil.
  - simpl. rewrite analyze_product_prices_returns, Nat.add_0_r.
    set (products := extracted loads (chat i url)).
    set (objs' := match products with [] => objs | _ :: _ => _ end).
    assert (objs' = extend all_products products objs) as ->.
    { subst objs'. destruct products; [by rewrite extend_nil | done]. }
    destruct (IH (S i) all_products (extend all_products products objs)) as [l ->].
    eexists. rewrite extend_app. do 2 f_equal. f_equal. f_equal. f_equal.
    apply imap_ext. intros k u _. simpl. do 2 f_equal. lia.
Qed.

(** C1.  The loop over the active URLs returns without an exception and
    leaves in [all_products] what it held before followed by the records of
    each request, in the order of the URLs and, for one URL, in the order of
    the reply.  A request that fails in transport contributes nothing, and
    so does one whose reply yields nothing; the requests after it still
    count.  With a first URL that fails and a second that yields one record
    the result is that record. *)
Theorem C1_loop_concatenates_and_tolerates_failures
    (loads : text -> res json) (chat : nat -> text -> res (option text))
    (urls : list text) (all_products : nat) (objs : list (list json)) :
  (forall reply,
     outcome (analyze_product_prices loads reply) = Ok (extracted loads reply))
  /\ (forall e, extracted loads (Raise e) = [])
  /\ (exists l,
        analyze_loop loads chat 0 urls all_products objs =
        (l,
         extend all_products
           (concat (imap (fun i url => extracted loads (chat i url)) urls)) objs,
         Ok ()))
  /\ (analyze_loop json_loads first_fails 0 [txt "https://a.lt"; txt "https://b.lt"]
        0 [[]]).1.2 = [[record_X]]
  /\ (analyze_loop json_loads first_fails 0 [txt "https://a.lt"; txt "https://b.lt"]
        0 [[]]).2 = Ok ().
Proof.
  split_and!.
  - apply analyze_product_prices_returns.
  - intros e. unfold extracted. by rewrite analyze_product_prices_cases.
  - apply (analyze_loop_extends loads chat urls 0).
  - by vm_compute.
  - by vm_compute.
Qed.

(** ** The parsing policy *)

(** C2.  The text handed to the decoder is found as follows: when some part
    of the response has the shape of an array of objects or of an object
    with a [products] array, it is such a part, the one that starts first
    and, of those that start there, the longest; otherwise it is the whole
    response.  When the decoded value is an
    object whose [products] member is an array the records are that array,
    and when it is an array the records are that array.  The response
    [{"products": [{"product_name":"Y"}]}] yields the one record with
    [product_name] Y. *)
Theorem C2_parsing_steps (loads : text -> res json) (response_text : text) :
  match re_search json_pattern response_text with
  | Some json_str =>
      first_json_like response_text json_str
      /\ load_response loads response_text = loads json_str
  | None =>
      no_json_like response_text
      /\ load_response loads response_text = loads response_text
  end
  /\ (forall d products,
        load_response loads response_text = Ok (JObj d) ->
        dict_get (txt "products") d = Some (JArr products) ->
        analyze_product_prices loads (Ok (Some response_text))
        = mkM [] (Ok products))
  /\ (forall products,
        load_response loads response_text = Ok (JArr products) ->
        analyze_product_prices loads (Ok (Some response_text))
        = mkM [] (Ok products))
  /\ analyze_product_prices json_loads
       (Ok (Some (jtxt "{'products': [{'product_name':'Y'}]}")))
     = mkM [] (Ok [JObj [(txt "product_name", JStr (txt "Y"))]]).
Proof.
  split_and!.
  - unfold load_response.
    destruct (re_search json_pattern response_text) as [json_str|] eqn:Hs.
    + split; [by apply re_search_first | done].
    + split; [by apply re_search_nothing | done].
  - intros d products Hv Hd. rewrite analyze_product_prices_cases, Hv.
    simpl. by rewrite Hd.
  - intros products Hv. by rewrite analyze_product_prices_cases, Hv.
  - by vm_compute.
Qed.

Lemma C2_parsing_steps_witness :
  analyze_product_prices json_loads (Ok (Some (jtxt "[{'product_name':'Y'}]")))
  = mkM [] (Ok [JObj [(txt "product_name", JStr (txt "Y"))]]).
Proof.
  destruct (C2_parsing_steps json_loads (jtxt "[{'product_name':'Y'}]"))
    as (_ & _ & Harray & _).
  apply Harray. by vm_compute.
Defined.

(** C3, the claim fails: the response [42] decodes to a number, which is
    not an array, and the result is empty without any warning. *)
Lemma C3_no_warning_when_not_an_array :
  (exists v, load_response json_loads (txt "42") = Ok v
             /\ forall l, products_of v <> JArr l)
  /\ outcome (analyze_product_prices json_loads (Ok (Some (txt "42")))) = Ok []
  /\ ~ warns (analyze_product_prices json_loads (Ok (Some (txt "42")))).
Proof.
  split_and!.
  - exists (JInt 42). split; [by vm_compute | by intros l].
  - by vm_compute.
  - intros (m & e & H). vm_compute in H. destruct H.
Qed.

(** C3, amended.  Whatever the response, extraction returns and does not
    raise.  When decoding raises, the result is empty and one warning that
    carries the error is shown.  When the decoded value, or its [products]
    member, is not an array, the result is empty and nothing is shown.  The
    response [not json at all] gives the empty result with a warning. *)
Theorem C3_empty_on_failure (loads : text -> res json) (response_text : text) :
  let r := analyze_product_prices loads (Ok (Some response_text)) in
  (exists products, outcome r = Ok products)
  /\ (forall e, load_response loads response_text = Raise e ->
        r = mkM [st_warning (txt "Could not parse products from URL: ") (Some e)]
                (Ok [])
        /\ warns r)
  /\ (forall v, load_response loads response_text = Ok v ->
        (forall l, products_of v <> JArr l) ->
        r = mkM [] (Ok []))
  /\ analyze_product_prices json_loads (Ok (Some (txt "not json at all")))
     = mkM [st_warning (txt "Could not parse products from URL: ")
              (Some JSONDecodeError)] (Ok []).
Proof.
  intros r. subst r. split_and!.
  - eexists. apply analyze_product_prices_returns.
  - intros e He. rewrite analyze_product_prices_cases, He.
    split; [done|]. eexists _, _. by left.
  - intros v Hv Hnot. rewrite analyze_product_prices_cases, Hv.
    destruct (products_of v) as [| | | | | |l|]; first [done | by destruct (Hnot l)].
  - by vm_compute.
Qed.

Lemma C3_empty_on_failure_witness :
  warns (analyze_product_prices json_loads (Ok (Some (txt "{oops"))))
  /\ analyze_product_prices json_loads (Ok (Some (jtxt "{'a': 1}")))
     = mkM [] (Ok []).
Proof.
  split.
  - destruct (C3_empty_on_failure json_loads (txt "{oops")) as (_ & Hraise & _).
    apply (Hraise JSONDecodeError). by vm_compute.
  - destruct (C3_empty_on_failure json_loads (jtxt "{'a': 1}")) as (_ & _ & Hnot & _).
    apply (Hnot (JObj [(txt "a", JInt 1)])).
    + by vm_compute.
    + intros l. by vm_compute.
Defined.

(** C4, the claim fails: the response [[1]] yields the number 1, which is
    no record, and a member of another type or another name is kept as it
    is. *)
Lemma C4_elements_are_not_coerced :
  outcome (analyze_product_prices json_loads (Ok (Some (txt "[1]"))))
  = Ok [JInt 1]
  /\ ProductRecord_shape (JInt 1) = false
  /\ outcome (analyze_product_prices json_loads
       (Ok (Some (jtxt "[{'product_price':'cheap','colour':'red'}]"))))
     = Ok [JObj [(txt "product_price", JStr (txt "cheap"));
                 (txt "colour", JStr (txt "red"))]]
  /\ ProductRecord_shape
       (JObj [(txt "product_price", JStr (txt "cheap"));
              (txt "colour", JStr (txt "red"))]) = false.
Proof. split_and!; by vm_compute. Qed.

(** C4, amended.  Extraction returns the elements of the decoded array as
    they were decoded: a non-empty result is the array that the decoder
    produced, or the [products] member of the object it produced.  The
    response [[{"product_name":"X","product_price":9.99}]] yields one
    object with these two members and no other. *)
Theorem C4_elements_as_decoded (loads : text -> res json)
    (reply : res (option text)) (products : list json) :
  (outcome (analyze_product_prices loads reply) = Ok products ->
   products <> [] ->
   exists response_text v,
     reply = Ok (Some response_text)
     /\ load_response loads response_text = Ok v
     /\ products_of v = JArr products)
  /\ outcome (analyze_product_prices json_loads
       (Ok (Some (jtxt "[{'product_name':'X','product_price':9.99}]"))))
     = Ok [JObj [(txt "product_name", JStr (txt "X"));
                 (txt "product_price", JFloat 999 (-2))]]
  /\ forall k, k <> txt "product_name" -> k <> txt "product_price" ->
       dict_get k [(txt "product_name", JStr (txt "X"));
                   (txt "product_price", JFloat 999 (-2))] = None.
Proof.
  split_and!.
  - rewrite analyze_product_prices_cases. intros H Hne.
    destruct reply as [[response_text|]|e]; simpl in H; try congruence.
    destruct (load_response loads response_text) as [v|e] eqn:Hv;
      simpl in H; [|congruence].
    exists response_text, v. split_and!; [done | done |].
    destruct (products_of v); simpl in H; congruence.
  - by vm_compute.
  - intros k H1 H2. simpl. unfold text_eqb.
    rewrite !bool_decide_eq_false_2; done.
Qed.

Lemma C4_elements_as_decoded_witness :
  exists response_text v,
    Ok (Some (jtxt "{'products': [7]}")) = Ok (Some response_text)
    /\ load_response json_loads response_text = Ok v
    /\ products_of v = JArr [JInt 7].
Proof.
  destruct (C4_elements_as_decoded json_loads
              (Ok (Some (jtxt "{'products': [7]}"))) [JInt 7]) as (Hsame & _).
  apply Hsame; by vm_compute.
Defined.

(** ** Discovery *)

Lemma discover_product_urls_cases reply :
  discover_product_urls reply =
  match reply with
  | Ok (Some urls) => mkM [] (Ok urls)
  | Ok None =>
      mkM [st_error (txt "Error discovering URLs: ") (Some AttributeError)] (Ok [])
  | Raise e => mkM [st_error (txt "Error discovering URLs: ") (Some e)] (Ok [])
  end.
Proof. unfold discover_product_urls. by destruct reply as [[urls|]|e]. Qed.

(** C6, the claim fails: a reply that holds the same URL twenty-one times is
    returned as it is, with its duplicates and its twenty-one elements. *)
Lemma C6_reply_is_neither_deduplicated_nor_cut :
  outcome (discover_product_urls (Ok (Some twenty_one_urls))) = Ok twenty_one_urls
  /\ ~ NoDup twenty_one_urls
  /\ 20 < length twenty_one_urls.
Proof.
  split_and!; [done | | vm_compute; lia].
  intros H. apply NoDup_cons in H as [H _]. apply H. by left.
Qed.

(** C6, amended.  Discovery returns the list of the reply as the service
    gave it, in its order, with whatever duplicates and length it has; when
    the request raises, or the reply does not fit the schema, it shows an
    error, returns the empty list and does not raise. *)
Theorem C6_discovery_returns_the_reply (reply : res (option (list text))) :
  discover_product_urls reply =
  match reply with
  | Ok (Some urls) => mkM [] (Ok urls)
  | Ok None =>
      mkM [st_error (txt "Error discovering URLs: ") (Some AttributeError)] (Ok [])
  | Raise e => mkM [st_error (txt "Error discovering URLs: ") (Some e)] (Ok [])
  end.
Proof. apply discover_product_urls_cases. Qed.

(** ** The price per basis *)

(** C7.  The member read is [price_per_] followed by the basis.  The suffix
    is a slash and the unit label of the record when the basis is unit and
    the record has one, and otherwise /kg, /L or /pkg by the basis.  With no
    basis nothing is shown, whatever the record holds; with a basis the
    price is shown exactly when the record has the member, and it ends in
    the suffix. *)
Theorem C7_price_basis_display (repr : json -> text) (o : objective)
    (product : list (text * json)) :
  price_per_key o = txt "price_per_" ++ objective_key o
  /\ (forall label, dict_get (txt "unit_type") product = Some (JStr label) ->
        unit_display repr obj_unit product = txt "/" ++ label)
  /\ unit_display repr obj_kg product = txt "/kg"
  /\ unit_display repr obj_liter product = txt "/L"
  /\ unit_display repr obj_package product = txt "/pkg"
  /\ price_calc_title repr obj_none product = None
  /\ (o <> obj_none ->
      price_calc_title repr o product =
      (fun price => txt " (" ++ [8364%N] ++ py_str repr price
                    ++ unit_display repr o product ++ txt ")")
      <$> dict_get (price_per_key o) product)
  /\ unit_display repr obj_unit [(txt "unit_type", JStr (txt "pill"))] = txt "/pill"
  /\ price_calc_title repr obj_none [(txt "price_per_unit", JFloat 999 (-2))] = None.
Proof.
  split_and!; try done.
  - intros label H. unfold unit_display. simpl. by rewrite H.
  - intros Ho. unfold price_calc_title.
    destruct o; try done; by destruct (dict_get _ product).
Qed.

Lemma C7_price_basis_display_witness :
  unit_display (fun _ => []) obj_unit
    [(txt "price_per_unit", JInt 2); (txt "unit_type", JStr (txt "tablet"))]
  = txt "/tablet"
  /\ price_calc_title (fun _ => txt "2") obj_unit
       [(txt "price_per_unit", JInt 2); (txt "unit_type", JStr (txt "tablet"))]
     = Some (txt " (" ++ [8364%N] ++ txt "2/tablet)").
Proof.
  split.
  - destruct (C7_price_basis_display (fun _ => []) obj_unit
      [(txt "price_per_unit", JInt 2); (txt "unit_type", JStr (txt "tablet"))])
      as (_ & Hunit & _).
    apply (Hunit (txt "tablet")). reflexivity.
  - destruct (C7_price_basis_display (fun _ => txt "2") obj_unit
      [(txt "price_per_unit", JInt 2); (txt "unit_type", JStr (txt "tablet"))])
      as (_ & _ & _ & _ & _ & _ & Hshown & _).
    rewrite Hshown; [reflexivity | discriminate].
Defined.

(** ** Start-up *)

Lemma script_configured loads wd w s :
  api_key_configured wd = true ->
  script loads wd w s
  = let '(l, s', h) :=
      then_ (search_form w)
        (then_ (discover_step wd w)
           (then_ (manage_urls w) (analyze_step loads wd w))) s in
    (page_head ++ st_tabs :: l, s', default Finished h).
Proof.
  unfold script, api_key_configured.
  destruct (secrets_get_config wd) as [config|e]; [|done]. by intros ->.
Qed.

Lemma script_without_key loads wd w s :
  api_key_configured wd = false ->
  (secrets wd <> None
   /\ script loads wd w s = (page_head ++ [st_error key_not_found None], s, Stopped))
  \/ (secrets wd = None
      /\ script loads wd w s = (page_head, s, Crashed FileNotFoundError)).
Proof.
  unfold script, api_key_configured, secrets_get_config.
  destruct (secrets wd) as [tables|]; [|by right].
  intros ->. by left.
Qed.

(** C9.  With no secrets file, the state that step 1 of the message of
    lines 24-34 tells the user to repair, reading the secrets at line 23
    raises: the run draws the page configuration, the title and the
    introduction and ends on the exception, with no remediation message
    and without [st.stop()].  With a secrets file that lacks the key the
    same run shows the message and stops. *)
Theorem C9_no_secrets_file_no_message :
  secrets no_secrets_world = None
  /\ script json_loads no_secrets_world (vitamins None) empty_session
     = (page_head, empty_session, Crashed FileNotFoundError)
  /\ ~ In (st_error key_not_found None)
         (script json_loads no_secrets_world (vitamins None) empty_session).1.1
  /\ script json_loads keyless_world (vitamins None) empty_session
     = (page_head ++ [st_error key_not_found None], empty_session, Stopped).
Proof.
  split_and!; [done | done | | done].
  simpl. intros [H|[H|[H|[]]]]; discriminate.
Qed.

(** ** The active URLs *)

Lemma active_urls_from_unset flags : forall urls i j url,
  urls !! j = Some url -> default true (flags !! (i + j)) = true ->
  In url (active_urls_from i urls flags).
Proof.
  induction urls as [|u urls IH]; intros i j url; [done|].
  destruct j as [|j]; simpl.
  - intros [= ->]. rewrite Nat.add_0_r. intros ->. by left.
  - intros Hj Hflag. replace (i + S j) with (S i + j) in Hflag by lia.
    specialize (IH (S i) j url Hj Hflag).
    destruct (default true (flags !! i)); [by right | done].
Qed.

(** Lines 358-359 by themselves: a URL at a position whose flag is not in
    the session is among the active URLs, and so is a URL just appended to
    the list when no flag is stored for its position. *)
Lemma filter_includes_unset_flags (urls : list text) (flags : gmap nat bool) :
  (forall i url, urls !! i = Some url -> flags !! i = None ->
     In url (active_urls urls flags))
  /\ (forall new_url, truthy new_url = true -> list_in new_url urls = false ->
        flags !! length urls = None ->
        add_url new_url urls = urls ++ [new_url]
        /\ In new_url (active_urls (add_url new_url urls) flags)).
Proof.
  split.
  - intros i url Hi Hflag. apply (active_urls_from_unset flags urls 0 i url Hi).
    simpl. by rewrite Hflag.
  - intros new_url Hnew Hin Hflag. unfold add_url. rewrite Hnew, Hin.
    split; [done|].
    apply (active_urls_from_unset flags _ 0 (length urls) new_url).
    + rewrite lookup_app_r by lia. by rewrite Nat.sub_diag.
    + simpl. by rewrite Hflag.
Qed.

(** ** The curated list *)

Lemma add_url_present new_url urls :
  list_in new_url urls = true -> add_url new_url urls = urls.
Proof. intros H. unfold add_url. rewrite H. by destruct (truthy new_url). Qed.

Lemma list_in_app_same x l : list_in x (l ++ [x]) = true.
Proof.
  unfold list_in. rewrite existsb_app. simpl. unfold text_eqb.
  rewrite bool_decide_eq_true_2 by done. by rewrite orb_true_r.
Qed.

(** Adding a URL a second time changes nothing. *)
Lemma add_url_twice new_url urls :
  add_url new_url (add_url new_url urls) = add_url new_url urls.
Proof.
  destruct (truthy new_url) eqn:Hn; [|unfold add_url; by rewrite Hn].
  destruct (list_in new_url urls) eqn:Hin.
  - rewrite (add_url_present _ _ Hin). by apply add_url_present.
  - assert (add_url new_url urls = urls ++ [new_url]) as ->
      by (unfold add_url; by rewrite Hn, Hin).
    apply add_url_present, list_in_app_same.
Qed.

(** C8, evaluated where the code departs from the claim.  Three URLs are
    discovered; the user clears the checkbox of the second, and the run that
    follows removes it from the list.  The cleared value stays under the key
    of the second position, where the third URL now stands: the active URLs
    of the resulting session are the first URL alone, and the run in which
    the user presses the analysis button removes the third URL from the list
    and analyses the first only.  Adding a URL twice leaves it once. *)
Theorem C8_clearing_a_checkbox_drops_the_next_url_too :
  let s0 := (script json_loads echo_world (vitamins (Some Discover)) empty_session).1.2 in
  let s1 := (script json_loads echo_world (vitamins None) (set_checkbox 1 false s0)).1.2 in
  let r2 := script json_loads echo_world (vitamins (Some Analyze)) s1 in
  discovered_urls s0
    = Some [txt "https://a.lt"; txt "https://b.lt"; txt "https://c.lt"]
  /\ discovered_urls s1 = Some [txt "https://a.lt"; txt "https://c.lt"]
  /\ active_urls [txt "https://a.lt"; txt "https://c.lt"] (url_ s1)
     = [txt "https://a.lt"]
  /\ discovered_urls r2.1.2 = Some [txt "https://a.lt"]
  /\ displayed r2.1.1 = [[found_at "https://a.lt"]]
  /\ r2.2 = Finished
  /\ add_url (txt "https://x.lt") (add_url (txt "https://x.lt") [txt "https://a.lt"])
     = [txt "https://a.lt"; txt "https://x.lt"].
Proof. vm_compute. split_and!; reflexivity. Qed.

(** ** Timestamps *)

Ltac Zify.zify_post_hook ::= Z.div_mod_to_equations.

Lemma text_lt_app_l : forall a a' b b',
  length a = length a' -> text_lt a a' -> text_lt (a ++ b) (a' ++ b').
Proof.
  induction a as [|x a IH]; intros [|y a'] b b' Hlen; simpl; try done.
  intros [?|[-> ?]]; [by left|]. right. split; [done|].
  apply IH; [by injection Hlen | done].
Qed.

Lemma text_lt_app_r a b b' : text_lt b b' -> text_lt (a ++ b) (a ++ b').
Proof.
  intros H. induction a as [|x a IH]; simpl; [done|]. by right.
Qed.

Lemma dec2_lt (n m : N) : (n < m < 100)%N -> text_lt (dec2 n) (dec2 m).
Proof. intros H. unfold dec2. simpl. lia. Qed.
Lemma dec_S fuel n :
  dec (S fuel) n =
  if (n <? 10)%N then [(48 + n)%N] else dec fuel (n / 10)%N ++ [(48 + n mod 10)%N].
Proof. reflexivity. Qed.

Lemma str_N_four_digits (n : N) :
  (1000 <= n < 10000)%N ->
  str_N n = [48 + n / 10 / 10 / 10; 48 + (n / 10 / 10) mod 10;
             48 + (n / 10) mod 10; 48 + n mod 10]%N.
Proof.
  intros H. unfold str_N.
  destruct (N.to_nat n) as [|[|[|fuel]]] eqn:Hfuel; try lia.
  rewrite !dec_S.
  destruct (N.ltb_spec n 10); [lia|].
  destruct (N.ltb_spec (n / 10) 10); [lia|].
  destruct (N.ltb_spec (n / 10 / 10) 10); [lia|].
  destruct (N.ltb_spec (n / 10 / 10 / 10) 10); [done | lia].
Qed.

Lemma digits_of (x : N) :
  exists q r : N, (x / 10 = q /\ x mod 10 = r /\ x = 10 * q + r /\ r < 10)%N.
Proof.
  exists (x / 10)%N, (x mod 10)%N. split_and!; [done | done | | ].
  - by apply N.div_mod.
  - by apply N.mod_lt.
Qed.

Lemma str_N_year_lt (n m : N) :
  (1000 <= n)%N -> (n < m)%N -> (m < 10000)%N -> text_lt (str_N n) (str_N m).
Proof.
  intros H1 H2 H3.
  rewrite (str_N_four_digits n), (str_N_four_digits m) by lia.
  cbn [text_lt].
  destruct (digits_of n) as (n1 & a0 & -> & -> & ? & ?).
  destruct (digits_of n1) as (n2 & a1 & -> & -> & ? & ?).
  destruct (digits_of n2) as (n3 & a2 & -> & -> & ? & ?).
  destruct (digits_of m) as (m1 & b0 & -> & -> & ? & ?).
  destruct (digits_of m1) as (m2 & b1 & -> & -> & ? & ?).
  destruct (digits_of m2) as (m3 & b2 & -> & -> & ? & ?).
  lia.
Qed.

Lemma str_N_year_length (n : N) :
  (1000 <= n < 10000)%N -> length (str_N n) = 4.
Proof. intros H. rewrite str_N_four_digits by done. reflexivity. Qed.

(** For readings with years of four digits the text of a later reading is
    not smaller, as a [str], than the text of an earlier one. *)
Lemma strftime_mono (a b : struct_time) :
  tm_plain a -> tm_plain b -> tm_le a b -> text_le (strftime a) (strftime b).
Proof.
  intros (Hya & Hma & Hda & Hha & Hia & Hsa) (Hyb & Hmb & Hdb & Hhb & Hib & Hsb).
  destruct a as [ya ma da ha ia sa], b as [yb mb db hb ib sb].
  unfold tm_le, tm_fields, strftime, text_le.
  cbn [tm_year tm_mon tm_mday tm_hour tm_min tm_sec text_lt] in *.
  intros [Hlt|Heq]; [|injection Heq as -> -> -> -> -> ->; by right].
  left. destruct Hlt as [Hy|[-> Hlt]].
  { apply text_lt_app_l; [by rewrite !str_N_year_length | apply str_N_year_lt; lia]. }
  apply text_lt_app_r, (text_lt_app_r (txt "-")).
  destruct Hlt as [Hm|[-> Hlt]];
    [apply (text_lt_app_l (dec2 _) (dec2 _)); [reflexivity | by apply dec2_lt]|].
  apply (text_lt_app_r (dec2 _)), (text_lt_app_r (txt "-")).
  destruct Hlt as [Hd|[-> Hlt]];
    [apply (text_lt_app_l (dec2 _) (dec2 _)); [reflexivity | by apply dec2_lt]|].
  apply (text_lt_app_r (dec2 _)), (text_lt_app_r (txt " ")).
  destruct Hlt as [Hh|[-> Hlt]];
    [apply (text_lt_app_l (dec2 _) (dec2 _)); [reflexivity | by apply dec2_lt]|].
  apply (text_lt_app_r (dec2 _)), (text_lt_app_r (txt ":")).
  destruct Hlt as [Hi|[-> Hlt]];
    [apply (text_lt_app_l (dec2 _) (dec2 _)); [reflexivity | by apply dec2_lt]|].
  apply (text_lt_app_r (dec2 _)), (text_lt_app_r (txt ":")).
  destruct Hlt as [Hs|[-> []]]. by apply dec2_lt.
Qed.

(** ** The history *)

Lemma displayed_app l1 l2 : displayed (l1 ++ l2) = displayed l1 ++ displayed l2.
Proof. apply omap_app. Qed.

Lemma analyze_product_prices_shows_nothing loads reply :
  displayed (log (analyze_product_prices loads reply)) = [].
Proof.
  rewrite analyze_product_prices_cases.
  destruct reply as [[response_text|]|e]; try done.
  destruct (load_response loads response_text) as [v|e]; [|done].
  by destruct (products_of v).
Qed.

Lemma analyze_loop_shows_nothing loads chat urls : forall i all_products objs,
  displayed (analyze_loop loads chat i urls all_products objs).1.1 = [].
Proof.
  induction urls as [|url urls IH]; intros i all_products objs; [done|].
  simpl. rewrite analyze_product_prices_returns.
  set (objs' := match extracted loads (chat i url) with [] => objs | _ :: _ => _ end).
  specialize (IH (S i) all_products objs').
  destruct (analyze_loop loads chat (S i) urls all_products objs') as [[l o] r].
  simpl in *. by rewrite displayed_app, analyze_product_prices_shows_nothing, IH.
Qed.

Lemma checkbox_loop_shows_nothing urls : forall i flags,
  displayed (checkbox_loop i urls flags).1.1 = [].
Proof.
  induction urls as [|url urls IH]; intros i flags; [done|].
  simpl. specialize (IH (S i) (<[i:=default true (flags !! i)]> flags)).
  destruct (checkbox_loop (S i) urls _) as [[l r] f]. done.
Qed.

Lemma history_view_same s s' :
  search_history s' = search_history s ->
  (forall o, o < length (objects s) -> objects s' !! o = objects s !! o) ->
  history_ok s -> history_view s' = history_view s.
Proof.
  unfold history_view, history_ok. intros -> Hobj Hok.
  induction Hok as [|e es He _ IH]; [done|].
  simpl. rewrite IH. unfold view at 1 3. by rewrite (Hobj _ He).
Qed.

(** A part that changes neither history nor objects and shows no result. *)
Lemma quiet_part wd w (b : block) :
  (forall s, search_history (b s).1.2 = search_history s
             /\ objects (b s).1.2 = objects s
             /\ displayed (b s).1.1 = []) ->
  appends_what_it_shows wd w b.
Proof.
  intros Hb s Hok. destruct (Hb s) as (Hh & Ho & Hd). split.
  - unfold history_ok. by rewrite Hh, Ho.
  - rewrite Hd. simpl. rewrite app_nil_r.
    apply history_view_same; [done | by rewrite Ho | done].
Qed.

Lemma then_appends wd w (b1 b2 : block) :
  appends_what_it_shows wd w b1 -> appends_what_it_shows wd w b2 ->
  appends_what_it_shows wd w (then_ b1 b2).
Proof.
  intros H1 H2 s Hok. unfold then_.
  destruct (H1 s Hok) as [Hok1 Hv1].
  destruct (b1 s) as [[l1 s1] [h|]]; [done|]. simpl in *.
  destruct (H2 s1 Hok1) as [Hok2 Hv2].
  destruct (b2 s1) as [[l2 s2] h2]. simpl in *.
  split; [done|]. by rewrite Hv2, Hv1, displayed_app, map_app, app_assoc.
Qed.

Lemma search_form_quiet wd w : appends_what_it_shows wd w (search_form w).
Proof.
  apply quiet_part. intros s. unfold search_form. simpl. split_and!; [done | done |].
  destruct (objective_eqb (price_calc_objective w) obj_none); [done|].
  by destruct (objective_eqb (price_calc_objective w) obj_unit).
Qed.

Lemma discover_step_quiet wd w : appends_what_it_shows wd w (discover_step wd w).
Proof.
  apply quiet_part. intros s. unfold discover_step.
  destruct (pressed w) as [[| |]|]; try done.
  destruct (truthy (product_category w) && truthy (product_name w)); [|done].
  destruct (negb (truthy (product_category w)) || negb (truthy (product_name w)));
    [done|].
  rewrite discover_product_urls_cases.
  by destruct (responses_parse wd _ _ _) as [[[|u us]|]|e].
Qed.

Lemma manage_urls_quiet wd w : appends_what_it_shows wd w (manage_urls w).
Proof.
  apply quiet_part. intros s. unfold manage_urls.
  destruct (discovered_urls s) as [[|u us]|]; try done.
  pose proof (checkbox_loop_shows_nothing (u :: us) 0 (url_ s)) as Hc.
  destruct (checkbox_loop 0 (u :: us) (url_ s)) as [[boxes rm] flags].
  unfold displayed in *. simpl in Hc.
  destruct (pressed w) as [[| |]|];
    try (simpl; rewrite omap_app, Hc; done).
  destruct (truthy (new_url w)); [|simpl; rewrite omap_app, Hc; done].
  destruct (negb (list_in (new_url w) _)); simpl;
    rewrite !omap_app, Hc; done.
Qed.

Arguments analyze_loop : simpl never.

(** What pressing the analysis button does to the session. *)
Lemma run_analysis_records loads wd w urls s :
  let r := run_analysis loads wd w urls s in
  (forall o, o < length (objects s) -> objects r.1.2 !! o = objects s !! o)
  /\ length (objects r.1.2) = S (length (objects s))
  /\ match aggregate loads wd w urls s with
     | [] =>
         search_history r.1.2 = search_history s /\ displayed r.1.1 = []
         /\ (active_urls urls (url_ s) <> [] ->
             In (st_error (txt "No products found matching your specifications.")
                   None) r.1.1)
     | products =>
         search_history r.1.2
         = Some (default [] (search_history s)
                 ++ [ {| timestamp := strftime (localtime wd);
                         entry_category := product_category w;
                         entry_product_name := product_name w;
                         entry_tech_spec := tech_spec w;
                         entry_price_calc_objective := price_calc_objective w;
                         results := length (objects s) |} ])
         /\ displayed r.1.1 = [products]
         /\ objects r.1.2 !! length (objects s) = Some products
     end.
Proof.
  unfold run_analysis, aggregate. simpl.
  set (chat := fun i url => chat_completions wd i _ _ _ url).
  generalize (active_urls urls (url_ s)). intros active.
  set (agg := concat (imap _ active)).
  pose proof (analyze_loop_shows_nothing loads chat active 0
                (length (objects s)) (objects s ++ [[]])) as Hshow.
  destruct (analyze_loop_extends loads chat active 0
              (length (objects s)) (objects s ++ [[]])) as [l Hloop].
  assert (analyze_loop loads chat 0 active (length (objects s)) (objects s ++ [[]])
          = (l, extend (length (objects s)) agg (objects s ++ [[]]), Ok ()))
    as Hloop' by exact Hloop.
  clear Hloop.
  assert (extend (length (objects s)) agg (objects s ++ [[]])
          !! length (objects s) = Some agg) as Hagg.
  { unfold extend. rewrite list_lookup_alter_eq, lookup_app_r by lia.
    by rewrite Nat.sub_diag. }
  assert (forall o, o < length (objects s) ->
            extend (length (objects s)) agg (objects s ++ [[]]) !! o
            = objects s !! o) as Hold.
  { intros o Ho. unfold extend. rewrite list_lookup_alter_ne by lia.
    by rewrite lookup_app_l. }
  assert (length (extend (length (objects s)) agg (objects s ++ [[]]))
          = S (length (objects s))) as Hlen.
  { unfold extend. rewrite length_alter, length_app. simpl. lia. }
  destruct active as [|u active].
  { subst agg. simpl. split_and!; try done.
    - intros o Ho. by rewrite lookup_app_l.
    - rewrite length_app. simpl. lia. }
  rewrite Hloop' in Hshow |- *. simpl in Hshow. cbn [fst snd].
  rewrite Hagg.
  destruct agg as [|p ps]; simpl.
  - split_and!; try done; [by rewrite displayed_app, Hshow|].
    intros _. apply in_app_iff. right. by left.
  - split_and!; try done. by rewrite displayed_app, Hshow.
Qed.

Lemma analyze_step_appends loads wd w :
  appends_what_it_shows wd w (analyze_step loads wd w).
Proof.
  intros s Hok. unfold analyze_step.
  destruct (discovered_urls s) as [[|u us]|] eqn:Hurls;
    try (simpl; split; [done | by rewrite app_nil_r]).
  destruct (pressed w) as [[| |]|];
    try (simpl; split; [done | by rewrite app_nil_r]).
  pose proof (run_analysis_records loads wd w (u :: us) s) as (Hold & Hlen & Hrun).
  destruct (run_analysis loads wd w (u :: us) s) as [[l s'] h]. simpl in *.
  change (displayed (st_button (txt "Analyze Product Prices") :: l))
    with (displayed l).
  destruct (aggregate loads wd w (u :: us) s) as [|p ps].
  - destruct Hrun as (Hh & -> & _). simpl. rewrite app_nil_r. split.
    + unfold history_ok in *. rewrite Hh, Hlen.
      eapply Forall_impl; [exact Hok | simpl; lia].
    + by apply history_view_same.
  - destruct Hrun as (Hh & -> & Hnew). split.
    + unfold history_ok in *. rewrite Hh, Hlen. simpl.
      apply Forall_app. split.
      * eapply Forall_impl; [exact Hok | simpl; lia].
      * apply Forall_cons. split; [simpl; lia | constructor].
    + unfold history_view. rewrite Hh. simpl. rewrite map_app. simpl. f_equal.
      * unfold history_ok in Hok. clear Hh.
        induction Hok as [|e es He _ IH]; [done|].
        simpl. rewrite IH. unfold view at 1 3. by rewrite (Hold _ He).
      * unfold view, run_record. simpl. by rewrite Hnew.
Qed.

Lemma script_appends loads wd w s :
  history_ok s ->
  history_ok (script loads wd w s).1.2
  /\ history_view (script loads wd w s).1.2
     = history_view s ++ map (run_record wd w) (displayed (script loads wd w s).1.1).
Proof.
  intros Hok. destruct (api_key_configured wd) eqn:Hkey.
  - rewrite (script_configured loads wd w s Hkey).
    pose proof (then_appends wd w _ _ (search_form_quiet wd w)
      (then_appends wd w _ _ (discover_step_quiet wd w)
         (then_appends wd w _ _ (manage_urls_quiet wd w)
            (analyze_step_appends loads wd w))) s Hok) as [Hok' Hv].
    destruct (then_ _ _ s) as [[l s'] h]. simpl in *. split; [done|].
    by rewrite Hv.
  - destruct (script_without_key loads wd w s Hkey) as [[_ ->]|[_ ->]];
      simpl; (split; [done | by rewrite app_nil_r]).
Qed.

Lemma ticks_keep ts : forall s,
  search_history (fold_left tick ts s) = search_history s
  /\ objects (fold_left tick ts s) = objects s.
Proof.
  induction ts as [|t ts IH]; intros s; [done|].
  simpl. destruct (IH (tick s t)) as [-> ->]. done.
Qed.

Lemma interact_appends loads s x :
  history_ok s ->
  history_ok (interact loads s x).1.2
  /\ history_view (interact loads s x).1.2
     = history_view s
       ++ map (run_record (at_world x) (with_inputs x))
            (displayed (interact loads s x).1.1).
Proof.
  intros Hok. unfold interact.
  destruct (ticks_keep (ticks x) s) as [Hh Ho].
  assert (history_ok (fold_left tick (ticks x) s)) as Hok'
    by (unfold history_ok; by rewrite Hh, Ho).
  destruct (script_appends loads (at_world x) (with_inputs x) _ Hok') as [? ->].
  split; [done|]. f_equal. unfold history_view. rewrite Hh.
  apply map_ext. intros e. unfold view. by rewrite Ho.
Qed.

Lemma session_after_appends loads xs : forall s,
  history_ok s ->
  history_ok (session_after loads xs s)
  /\ history_view (session_after loads xs s)
     = history_view s ++ shown_along loads s xs.
Proof.
  induction xs as [|x xs IH]; intros s Hok.
  - simpl. split; [done | by rewrite app_nil_r].
  - destruct (interact_appends loads s x Hok) as [Hok' Hv].
    destruct (IH _ Hok') as [? Hv']. split; [done|].
    change (session_after loads (x :: xs) s)
      with (session_after loads xs (interact loads s x).1.2).
    rewrite Hv', Hv. simpl. by rewrite app_assoc.
Qed.

Lemma session_after_app loads xs ys s :
  session_after loads (xs ++ ys) s
  = session_after loads ys (session_after loads xs s).
Proof. apply fold_left_app. Qed.

Lemma text_le_refl a : text_le a a.
Proof. by right. Qed.

Lemma shown_along_sorted loads xs : forall s,
  StronglySorted tm_le (map (fun x => localtime (at_world x)) xs) ->
  Forall (fun x => tm_plain (localtime (at_world x))) xs ->
  StronglySorted text_le (map at_time (shown_along loads s xs))
  /\ Forall (fun t => exists x, In x xs /\ t = strftime (localtime (at_world x)))
       (map at_time (shown_along loads s xs)).
Proof.
  induction xs as [|x xs IH]; intros s Hsorted Hplain.
  - simpl. split; constructor.
  - simpl in Hsorted. apply StronglySorted_cons in Hsorted as [Hx Hsorted].
    apply Forall_cons in Hplain as [Hpx Hplain].
    destruct (IH (interact loads s x).1.2 Hsorted Hplain) as [IHs IHt].
    cbn [shown_along]. rewrite map_app.
    set (here := map at_time (map (run_record (at_world x) (with_inputs x))
                                (displayed (interact loads s x).1.1))).
    assert (Forall (fun t => t = strftime (localtime (at_world x))) here) as Hhere.
    { apply Forall_forall. intros t Ht. subst here.
      apply list_elem_of_fmap in Ht as (r & -> & Hr).
      by apply list_elem_of_fmap in Hr as (p & -> & _). }
    clearbody here. split.
    + apply StronglySorted_app_2.
      * intros t1 t2 H1 H2.
        rewrite Forall_forall in Hhere. rewrite (Hhere _ H1).
        rewrite Forall_forall in IHt.
        destruct (IHt _ H2) as (y & Hy & ->).
        apply strftime_mono; [done | |].
        -- rewrite Forall_forall in Hplain. apply Hplain. by apply list_elem_of_In.
        -- rewrite Forall_forall in Hx. apply Hx.
           apply list_elem_of_fmap. exists y. split; [done | by apply list_elem_of_In].
      * induction Hhere as [|t ts -> Hts IHh]; [constructor|].
        apply StronglySorted_cons. split; [|done].
        eapply Forall_impl; [exact Hts|]. intros t ->. apply text_le_refl.
      * done.
    + apply Forall_app. split.
      * eapply Forall_impl; [exact Hhere|].
        intros t ->. exists x. split; [by left | done].
      * eapply Forall_impl; [exact IHt|].
        intros t (y & ? & ->). exists y. split; [by right | done].
Qed.

(** C5, the claim fails.  Timestamps are not non-decreasing in append
    order when the local clock steps back: of two runs forty minutes apart
    at the end of daylight saving time, the later is recorded with the
    earlier timestamp.  And an entry does not hold the whole query: the
    unit label typed for the basis [unit] is stored nowhere, so that two
    queries that differ in it leave the same history. *)
Lemma C5_timestamps_step_back_and_unit_label_is_dropped :
  let s := session_after json_loads clock_steps_back empty_session in
  (time summer_world < time winter_world)%N
  /\ map timestamp (default [] (search_history s))
     = [txt "2025-10-26 03:30:00"; txt "2025-10-26 03:10:00"]
  /\ ~ StronglySorted text_le (map timestamp (default [] (search_history s)))
  /\ custom_calc_unit (vitamins_per "tablet" (Some Analyze))
     <> custom_calc_unit (vitamins_per "capsule" (Some Analyze))
  /\ search_history (session_after json_loads (asking_per "tablet") empty_session)
     = search_history (session_after json_loads (asking_per "capsule") empty_session)
  /\ length (default [] (search_history
               (session_after json_loads (asking_per "tablet") empty_session))) = 1.
Proof.
  cbv zeta.
  assert (map timestamp
            (default [] (search_history
               (session_after json_loads clock_steps_back empty_session)))
          = [txt "2025-10-26 03:30:00"; txt "2025-10-26 03:10:00"]) as Hts
    by (by vm_compute).
  split_and!; [done | done | | by vm_compute | by vm_compute | by vm_compute].
  rewrite Hts. intros Hsorted.
  apply StronglySorted_inv in Hsorted as [_ Hle].
  apply Forall_inv in Hle. destruct Hle as [Hlt|Heq]; [|by vm_compute in Heq].
  vm_compute in Hlt.
  repeat (destruct Hlt as [Hlt|[_ Hlt]]; [done|]). done.
Qed.

(** C5, amended.  Pressing the analysis button records an entry exactly
    when the records of the run are not empty: then the history gains one
    entry, at its end, with the time of the run, the category, product
    name, specification and price basis of its query, and a reference to
    the list object that holds the records, and the records are shown; an
    empty run leaves the history as it was and reports that no products
    were found.  Over any sequence of interactions from a fresh session the
    history, read with its results, is the list of the runs that showed
    results, in order, so its length is their number; further interactions
    only add entries after the ones present, which keep their results; and
    when the local clock readings of the interactions are non-decreasing,
    with years of four digits, the timestamps are non-decreasing as
    texts. *)
Theorem C5_history_is_append_only (loads : text -> res json)
    (xs ys : list interaction) :
  let s := session_after loads xs empty_session in
  (forall wd w urls s0,
     let r := run_analysis loads wd w urls s0 in
     match aggregate loads wd w urls s0 with
     | [] =>
         search_history r.1.2 = search_history s0 /\ displayed r.1.1 = []
         /\ (active_urls urls (url_ s0) <> [] ->
             In (st_error (txt "No products found matching your specifications.")
                   None) r.1.1)
     | products =>
         search_history r.1.2
         = Some (default [] (search_history s0)
                 ++ [ {| timestamp := strftime (localtime wd);
                         entry_category := product_category w;
                         entry_product_name := product_name w;
                         entry_tech_spec := tech_spec w;
                         entry_price_calc_objective := price_calc_objective w;
                         results := length (objects s0) |} ])
         /\ displayed r.1.1 = [products]
         /\ objects r.1.2 !! length (objects s0) = Some products
     end)
  /\ history_view s = shown_along loads empty_session xs
  /\ length (default [] (search_history s))
     = length (shown_along loads empty_session xs)
  /\ history_view (session_after loads (xs ++ ys) empty_session)
     = history_view s ++ shown_along loads s ys
  /\ (StronglySorted tm_le (map (fun x => localtime (at_world x)) xs) ->
      Forall (fun x => tm_plain (localtime (at_world x))) xs ->
      StronglySorted text_le (map timestamp (default [] (search_history s)))).
Proof.
  intros s.
  assert (history_ok empty_session) as Hok0 by constructor.
  destruct (session_after_appends loads xs empty_session Hok0) as [Hok Hv].
  fold s in Hok, Hv. simpl in Hv.
  split_and!.
  - intros wd w urls s0. apply run_analysis_records.
  - done.
  - rewrite <- Hv. unfold history_view. by rewrite length_map.
  - rewrite session_after_app. fold s.
    by destruct (session_after_appends loads ys s Hok) as [_ ->].
  - intros Hsorted Hplain.
    destruct (shown_along_sorted loads xs empty_session Hsorted Hplain) as [Hs _].
    rewrite <- Hv in Hs. unfold history_view in Hs. by rewrite map_map in Hs.
Qed.

Lemma C5_history_is_append_only_witness :
  StronglySorted text_le
    (map timestamp
       (default [] (search_history
          (session_after json_loads three_interactions empty_session))))
  /\ map timestamp
       (default [] (search_history
          (session_after json_loads three_interactions empty_session)))
     = [txt "2025-03-09 07:05:01"; txt "2025-03-09 08:05:01"].
Proof.
  split; [|by vm_compute].
  destruct (C5_history_is_append_only json_loads three_interactions [])
    as (_ & _ & _ & _ & Hsorted).
  apply Hsorted.
  - repeat match goal with
           | |- StronglySorted _ _ => constructor
           | |- Forall _ _ => constructor
           end.
    + left. vm_compute. right. split; [done|]. right. split; [done|].
      right. split; [done|]. by left.
    + by right.
    + left. vm_compute. right. split; [done|]. right. split; [done|].
      right. split; [done|]. by left.
  - repeat match goal with |- Forall _ _ => constructor end;
      vm_compute; split_and!; first [done | discriminate].
Defined.

(** * Further properties *)

(** ** Finding the JSON in prose *)

Lemma json_like_ends m :
  json_like m ->
  (exists t, m = 91%N :: t \/ m = 123%N :: t)
  /\ (exists t, m = t ++ [93%N] \/ m = t ++ [125%N]).
Proof.
  intros [(w1 & body & w2 & -> & _)|(w1 & w2 & w3 & body & w4 & -> & _)].
  - split; [eexists; left; reflexivity|].
    exists (txt "[" ++ w1 ++ txt "{" ++ body ++ txt "}" ++ w2). left.
    by rewrite <- !app_assoc.
  - split; [eexists; right; reflexivity|].
    exists (txt "{" ++ w1 ++ jtxt "'products'" ++ w2 ++ txt ":" ++ w3
            ++ txt "[" ++ body ++ txt "]" ++ w4). right.
    by rewrite <- !app_assoc.
Qed.

(** X1.  Prose around the JSON is tolerated: when the response is some
    text without an opening bracket or brace, then a part of one of the two
    shapes, then some text without a closing bracket or brace, the decoder is
    handed exactly that part. *)
Theorem X1_prose_around_the_json_is_dropped (loads : text -> res json)
    (pre m post : text) :
  json_like m ->
  ~ In 91%N pre -> ~ In 123%N pre -> ~ In 93%N post -> ~ In 125%N post ->
  re_search json_pattern (pre ++ m ++ post) = Some m
  /\ load_response loads (pre ++ m ++ post) = loads m.
Proof.
  intros Hm Hpre1 Hpre2 Hpost1 Hpost2.
  assert (re_search json_pattern (pre ++ m ++ post) = Some m) as Hs.
  { destruct (re_search json_pattern (pre ++ m ++ post)) as [m0|] eqn:Hs.
    2: { by destruct (re_search_nothing _ Hs pre m post). }
    destruct (re_search_first _ _ Hs) as (pre0 & post0 & Heq & Hm0 & Hfirst).
    destruct (Hfirst pre m post eq_refl Hm) as [Hlt|[Hlen Hlong]].
    - exfalso. destruct (json_like_ends _ Hm0) as [[t Ht] _].
      assert ((pre ++ m ++ post) !! length pre0 = pre !! length pre0) as Hat
        by (by rewrite lookup_app_l).
      rewrite Heq, lookup_app_r, Nat.sub_diag in Hat by lia.
      destruct Ht as [-> | ->]; simpl in Hat; symmetry in Hat;
        apply list_elem_of_lookup_2, list_elem_of_In in Hat; done.
    - apply app_inj_1 in Heq as [<- Heq]; [|done]. f_equal.
      destruct (decide (length m0 = length m)) as [Hsame|Hne].
      { by apply app_inj_1 in Heq as [? _]. }
      exfalso. destruct (json_like_ends _ Hm0) as [_ [t Ht]].
      assert (exists c, (c = 93%N \/ c = 125%N) /\ m0 = t ++ [c]) as (c & Hc & ->)
        by (destruct Ht as [-> | ->]; eexists; eauto).
      rewrite length_app in Hlong, Hne. simpl in Hlong, Hne.
      assert ((m ++ post) !! length t = Some c) as Hat.
      { rewrite Heq, <- app_assoc, lookup_app_r, Nat.sub_diag by lia. done. }
      rewrite lookup_app_r in Hat by lia.
      apply list_elem_of_lookup_2, list_elem_of_In in Hat.
      destruct Hc as [-> | ->]; done. }
  split; [done|]. unfold load_response. by rewrite Hs.
Qed.

Lemma X1_prose_around_the_json_is_dropped_witness :
  load_response json_loads
    (txt "Here are the prices: " ++ jtxt "[{'product_name':'X'}]" ++ txt " Enjoy.")
  = json_loads (jtxt "[{'product_name':'X'}]").
Proof.
  apply (X1_prose_around_the_json_is_dropped json_loads
           (txt "Here are the prices: ") (jtxt "[{'product_name':'X'}]")
           (txt " Enjoy.")).
  - left. exists [], (jtxt "'product_name':'X'"), [].
    split_and!; [by vm_compute | constructor | constructor].
  - vm_compute. intuition discriminate.
  - vm_compute. intuition discriminate.
  - vm_compute. intuition discriminate.
  - vm_compute. intuition discriminate.
Defined.

(** ** What extraction reports *)

(** X2.  One extraction puts at most one message on the page, and none
    when it returns records; the message is an error exactly when the
    request itself failed. *)
Theorem X2_extraction_reports_at_most_once (loads : text -> res json)
    (reply : res (option text)) :
  let r := analyze_product_prices loads reply in
  length (log r) <= 1
  /\ (log r <> [] -> outcome r = Ok [])
  /\ ((exists m e, log r = [st_error m e]) <-> exists e, reply = Raise e)
  /\ ((exists m e, log r = [st_warning m e]) ->
      exists response_text, reply = Ok response_text).
Proof.
  intros r. subst r. rewrite analyze_product_prices_cases.
  destruct reply as [[response_text|]|e].
  - destruct (load_response loads response_text) as [v|e].
    + assert (forall products : list json,
                log (match products_of v with
                     | JArr products => mkM [] (Ok products)
                     | _ => mkM [] (Ok [])
                     end) = []) as Hlog by (intros _; by destruct (products_of v)).
      rewrite (Hlog []). split_and!; [simpl; lia | done | | by eexists].
      split; [by intros (? & ? & ?) | by intros [? ?]].
    + simpl. split_and!; [lia | done | | by eexists].
      split; [by intros (? & ? & ?) | by intros [? ?]].
  - simpl. split_and!; [lia | done | | by eexists].
    split; [by intros (? & ? & ?) | by intros [? ?]].
  - simpl. split_and!; [lia | done | | by intros (? & ? & ?)].
    split; [by eexists | by eexists _, _].
Qed.

Lemma X2_extraction_reports_at_most_once_witness :
  outcome (analyze_product_prices json_loads (Ok (Some (txt "oops")))) = Ok [].
Proof.
  destruct (X2_extraction_reports_at_most_once json_loads (Ok (Some (txt "oops"))))
    as (_ & Hempty & _).
  apply Hempty. by vm_compute.
Defined.

Lemma analyze_loop_cons loads chat i url rest all_products objs :
  analyze_loop loads chat i (url :: rest) all_products objs =
  let r := analyze_product_prices loads (chat i url) in
  match outcome r with
  | Raise e => (log r, objs, Raise e)
  | Ok products =>
      let objs :=
        match products with
        | [] => objs
        | _ :: _ => extend all_products products objs
        end in
      let '(l, objs, o) := analyze_loop loads chat (S i) rest all_products objs in
      (log r ++ l, objs, o)
  end.
Proof. reflexivity. Qed.

Lemma analyze_loop_log loads chat urls : forall i all_products objs,
  (analyze_loop loads chat i urls all_products objs).1.1
  = concat (imap (fun k url => log (analyze_product_prices loads (chat (i + k) url)))
              urls).
Proof.
  induction urls as [|url urls IH]; intros i all_products objs; [done|].
  rewrite analyze_loop_cons. cbv zeta. rewrite analyze_product_prices_returns.
  set (objs' := match extracted loads (chat i url) with [] => objs | _ :: _ => _ end).
  specialize (IH (S i) all_products objs').
  destruct (analyze_loop loads chat (S i) urls all_products objs') as [[l o] r].
  simpl in *. rewrite IH, Nat.add_0_r. f_equal. f_equal.
  apply imap_ext. intros k u _. simpl. do 3 f_equal. lia.
Qed.

Lemma analyze_product_prices_log_short loads reply :
  length (log (analyze_product_prices loads reply)) <= 1.
Proof.
  rewrite analyze_product_prices_cases.
  destruct reply as [[response_text|]|e]; simpl; try lia.
  destruct (load_response loads response_text) as [v|e]; simpl; [|lia].
  destruct (products_of v); simpl; lia.
Qed.

Lemma concat_imap_short {A B} (l : list A) : forall f : nat -> A -> list B,
  (forall k x, length (f k x) <= 1) -> length (concat (imap f l)) <= length l.
Proof.
  induction l as [|x l IH]; intros f Hf; [done|].
  rewrite imap_cons. simpl. rewrite length_app.
  specialize (IH (f ∘ S) (fun k y => Hf (S k) y)). specialize (Hf 0 x). lia.
Qed.

(** X3.  The messages of an analysis are those of its requests, in the
    order of the URLs: at most one per URL. *)
Theorem X3_messages_follow_the_urls (loads : text -> res json)
    (chat : nat -> text -> res (option text)) (urls : list text)
    (all_products : nat) (objs : list (list json)) :
  (analyze_loop loads chat 0 urls all_products objs).1.1
  = concat (imap (fun i url => log (analyze_product_prices loads (chat i url))) urls)
  /\ length (analyze_loop loads chat 0 urls all_products objs).1.1 <= length urls.
Proof.
  rewrite (analyze_loop_log loads chat urls 0). split; [done|].
  apply concat_imap_short. intros k x. apply analyze_product_prices_log_short.
Qed.

(** ** Curating the list *)

Lemma list_in_spec x l : list_in x l = true <-> x ∈ l.
Proof.
  unfold list_in. rewrite existsb_exists. split.
  - intros (y & Hy & Heq). apply bool_decide_eq_true in Heq as ->.
    by apply list_elem_of_In.
  - intros Hx. exists x. split; [by apply list_elem_of_In|].
    by apply bool_decide_eq_true.
Qed.

Lemma list_remove_sublist x l : list_remove x l `sublist_of` l.
Proof.
  induction l as [|y l IH]; simpl; [done|].
  destruct (text_eqb x y); [by apply sublist_cons | by apply sublist_skip].
Qed.

Lemma remove_unchecked_sublist rm : forall urls,
  remove_unchecked rm urls `sublist_of` urls.
Proof.
  unfold remove_unchecked. induction rm as [|x rm IH]; intros urls; simpl; [done|].
  destruct (list_in x urls); [|apply IH].
  etrans; [apply IH | apply list_remove_sublist].
Qed.

Lemma remove_unchecked_cons_other u rm : forall l,
  u ∉ rm -> remove_unchecked rm (u :: l) = u :: remove_unchecked rm l.
Proof.
  unfold remove_unchecked. induction rm as [|x rm IH]; intros l Hu; simpl; [done|].
  apply not_elem_of_cons in Hu as [Hne Hu].
  assert (text_eqb x u = false) as Hxu by (apply bool_decide_eq_false; congruence).
  rewrite Hxu. simpl. destruct (list_in x l); by rewrite IH.
Qed.

Lemma checkbox_loop_later_flags urls : forall i f1 f2,
  (forall k, i <= k -> f1 !! k = f2 !! k) ->
  (checkbox_loop i urls f1).1.2 = (checkbox_loop i urls f2).1.2.
Proof.
  induction urls as [|u urls IH]; intros i f1 f2 Hf; [done|].
  simpl. rewrite (Hf i) by lia.
  set (v := default true (f2 !! i)).
  specialize (IH (S i) (<[i:=v]> f1) (<[i:=v]> f2)).
  destruct (checkbox_loop (S i) urls (<[i:=v]> f1)) as [[l1 r1] g1].
  destruct (checkbox_loop (S i) urls (<[i:=v]> f2)) as [[l2 r2] g2].
  simpl in *. rewrite IH; [done|].
  intros k Hk. rewrite !lookup_insert_ne by lia. apply Hf. lia.
Qed.

Lemma checkbox_loop_cons i u urls flags :
  (checkbox_loop i (u :: urls) flags).1.2
  = if default true (flags !! i) then (checkbox_loop (S i) urls flags).1.2
    else u :: (checkbox_loop (S i) urls flags).1.2.
Proof.
  simpl. set (v := default true (flags !! i)).
  pose proof (checkbox_loop_later_flags urls (S i) (<[i:=v]> flags) flags) as H.
  destruct (checkbox_loop (S i) urls (<[i:=v]> flags)) as [[l r] g]. simpl in *.
  rewrite H; [done|]. intros k Hk. by rewrite lookup_insert_ne by lia.
Qed.

Lemma checkbox_loop_removes_drawn urls : forall i flags x,
  x ∈ (checkbox_loop i urls flags).1.2 -> x ∈ urls.
Proof.
  induction urls as [|u urls IH]; intros i flags x; [by simpl|].
  rewrite checkbox_loop_cons. destruct (default true (flags !! i)).
  - intros H. right. by apply (IH (S i) flags).
  - intros [->|H]%elem_of_cons; [by left|]. right. by apply (IH (S i) flags).
Qed.

Lemma remove_unchecked_is_filter urls : forall i flags,
  NoDup urls ->
  remove_unchecked (checkbox_loop i urls flags).1.2 urls
  = active_urls_from i urls flags.
Proof.
  induction urls as [|u urls IH]; intros i flags Hnd; [done|].
  apply NoDup_cons in Hnd as [Hu Hnd].
  rewrite checkbox_loop_cons. simpl.
  destruct (default true (flags !! i)).
  - rewrite remove_unchecked_cons_other, IH; [done | done |].
    intros H. apply Hu. by apply (checkbox_loop_removes_drawn urls (S i) flags).
  - unfold remove_unchecked. simpl. unfold text_eqb at 1.
    rewrite bool_decide_eq_true_2 by done. simpl.
    unfold text_eqb. rewrite bool_decide_eq_true_2 by done.
    by apply IH.
Qed.

(** X4.  On a list without duplicates, the curation step leaves exactly the
    URLs whose checkbox was ticked when the run started, in their order:
    the list becomes what the filter of the analysis would select from it. *)
Theorem X4_curation_keeps_the_ticked (urls : list text) (flags : gmap nat bool) :
  NoDup urls ->
  remove_unchecked (checkbox_loop 0 urls flags).1.2 urls = active_urls urls flags.
Proof. apply remove_unchecked_is_filter. Qed.

Lemma X4_curation_keeps_the_ticked_witness :
  remove_unchecked
    (checkbox_loop 0 [txt "a"; txt "b"; txt "c"] {[ 1 := false ]}).1.2
    [txt "a"; txt "b"; txt "c"]
  = active_urls [txt "a"; txt "b"; txt "c"] {[ 1 := false ]}.
Proof.
  apply (X4_curation_keeps_the_ticked [txt "a"; txt "b"; txt "c"] {[ 1 := false ]}).
  apply (bool_decide_unpack _). by vm_compute.
Defined.

Lemma checkbox_loop_flags urls : forall i flags k,
  (checkbox_loop i urls flags).2 !! k
  = if decide (i <= k < i + length urls) then Some (default true (flags !! k))
    else flags !! k.
Proof.
  induction urls as [|u urls IH]; intros i flags k.
  - simpl. destruct (decide _); [lia | done].
  - simpl. set (v := default true (flags !! i)).
    specialize (IH (S i) (<[i:=v]> flags) k).
    destruct (checkbox_loop (S i) urls (<[i:=v]> flags)) as [[l r] g].
    simpl in *. rewrite IH.
    destruct (decide (i = k)) as [->|Hne].
    + rewrite lookup_insert_eq. subst v.
      destruct (decide (S k <= k < _)); [lia|]. destruct (decide _); [done | lia].
    + rewrite lookup_insert_ne by done.
      destruct (decide (S i <= k < _)), (decide (i <= k < _)); try done; lia.
Qed.

(** X5.  Drawing the checkboxes stores a value for every position drawn,
    [True] where there was none, and changes no value that was stored. *)
Theorem X5_checkboxes_register_their_value (urls : list text)
    (flags : gmap nat bool) (k : nat) :
  (checkbox_loop 0 urls flags).2 !! k
  = if decide (k < length urls) then Some (default true (flags !! k))
    else flags !! k.
Proof.
  rewrite checkbox_loop_flags.
  destruct (decide (0 <= k < 0 + length urls)), (decide (k < length urls));
    try done; lia.
Qed.

Lemma active_urls_from_sublist urls : forall i flags,
  active_urls_from i urls flags `sublist_of` urls.
Proof.
  induction urls as [|u urls IH]; intros i flags; simpl; [done|].
  destruct (default true (flags !! i)); [apply sublist_skip | apply sublist_cons];
    apply IH.
Qed.

Lemma active_urls_from_all urls : forall i flags,
  active_urls_from i urls flags = urls
  <-> forall k, k < length urls -> flags !! (i + k) <> Some false.
Proof.
  induction urls as [|u urls IH]; intros i flags; simpl.
  - split; [intros _ k Hk; lia | done].
  - destruct (flags !! i) as [[|]|] eqn:Hi; simpl.
    + split.
      * intros [= H]. pose proof (proj1 (IH (S i) flags) H) as H'. intros [|k] Hk.
        -- rewrite Nat.add_0_r. congruence.
        -- replace (i + S k) with (S i + k) by lia. apply H'. lia.
      * intros H. f_equal. apply IH. intros k Hk.
        replace (S i + k) with (i + S k) by lia. apply H. lia.
    + split.
      * intros H. exfalso.
        pose proof (sublist_length _ _ (active_urls_from_sublist urls (S i) flags)).
        rewrite H in *. simpl in *. lia.
      * intros H. destruct (H 0); [lia|]. by rewrite Nat.add_0_r.
    + split.
      * intros [= H]. pose proof (proj1 (IH (S i) flags) H) as H'. intros [|k] Hk.
        -- rewrite Nat.add_0_r. congruence.
        -- replace (i + S k) with (S i + k) by lia. apply H'. lia.
      * intros H. f_equal. apply IH. intros k Hk.
        replace (S i + k) with (i + S k) by lia. apply H. lia.
Qed.

(** X6.  The active URLs are URLs of the list, in the order of the list,
    and they are the whole list exactly when no position of the list has a
    cleared checkbox. *)
Theorem X6_active_urls_select_in_order (urls : list text) (flags : gmap nat bool) :
  active_urls urls flags `sublist_of` urls
  /\ (active_urls urls flags = urls
      <-> forall k, k < length urls -> flags !! k <> Some false).
Proof.
  split; [apply active_urls_from_sublist|]. apply (active_urls_from_all urls 0).
Qed.

Lemma add_url_cases new_url urls :
  add_url new_url urls
  = if truthy new_url && negb (list_in new_url urls) then urls ++ [new_url]
    else urls.
Proof.
  unfold add_url. destruct (truthy new_url); [|done].
  by destruct (list_in new_url urls).
Qed.

(** X7.  Adding a URL appends it when it is not empty and not yet in the
    list and does nothing otherwise: the URLs present keep their positions,
    a list without duplicates stays so, adding again changes nothing, and a
    non-empty URL is in the list afterwards. *)
Theorem X7_adding_a_url (new_url : text) (urls : list text) :
  urls `prefix_of` add_url new_url urls
  /\ (NoDup urls -> NoDup (add_url new_url urls))
  /\ add_url new_url (add_url new_url urls) = add_url new_url urls
  /\ (truthy new_url = true -> new_url ∈ add_url new_url urls)
  /\ (truthy new_url = false -> add_url new_url urls = urls).
Proof.
  split_and!.
  - rewrite add_url_cases. destruct (_ && _); [by apply prefix_app_r | done].
  - intros Hnd. rewrite add_url_cases.
    destruct (truthy new_url); simpl; [|done].
    destruct (list_in new_url urls) eqn:Hin; simpl; [done|].
    apply NoDup_app. split_and!; [done | | apply NoDup_singleton].
    intros x Hx [->|[]%elem_of_nil]%elem_of_cons.
    apply list_in_spec in Hx. congruence.
  - apply add_url_twice.
  - intros Hn. rewrite add_url_cases, Hn. simpl.
    destruct (list_in new_url urls) eqn:Hin; simpl.
    + by apply list_in_spec.
    + apply elem_of_app. right. by left.
  - intros Hn. by rewrite add_url_cases, Hn.
Qed.

Lemma X7_adding_a_url_witness :
  NoDup (add_url (txt "https://x.lt") [txt "https://a.lt"])
  /\ txt "https://x.lt" ∈ add_url (txt "https://x.lt") [txt "https://a.lt"]
  /\ add_url [] [txt "https://a.lt"] = [txt "https://a.lt"].
Proof.
  destruct (X7_adding_a_url (txt "https://x.lt") [txt "https://a.lt"])
    as (_ & Hnd & _ & Hin & _).
  destruct (X7_adding_a_url [] [txt "https://a.lt"]) as (_ & _ & _ & _ & Hempty).
  split_and!.
  - apply Hnd. apply (bool_decide_unpack _). by vm_compute.
  - by apply Hin.
  - by apply Hempty.
Defined.

(** X8.  The curation step only drops URLs, and appends at most the one the
    user adds: the list it leaves is, in order, part of the list it found
    followed by the new URL, part of the list it found when no URL is
    added, and free of duplicates when the list it found was. *)
Theorem X8_curation_drops_or_appends (w : inputs) (s : session_state) :
  let old := default [] (discovered_urls s) in
  let new := default [] (discovered_urls (manage_urls w s).1.2) in
  new `sublist_of` old ++ [new_url w]
  /\ (pressed w <> Some AddURL -> new `sublist_of` old)
  /\ (NoDup old -> NoDup new).
Proof.
  unfold manage_urls.
  destruct (discovered_urls s) as [[|u us]|] eqn:Hurls;
    [simpl; rewrite Hurls; simpl; split_and!; [by apply sublist_nil_l | done | done]
    | | simpl; rewrite Hurls; simpl;
        split_and!; [by apply sublist_nil_l | done | done]].
  destruct (checkbox_loop 0 (u :: us) (url_ s)) as [[boxes rm] flags].
  pose proof (remove_unchecked_sublist rm (u :: us)) as Hsub.
  set (urls := remove_unchecked rm (u :: us)) in *.
  destruct (pressed w) as [[| |]|]; simpl;
    try (split_and!; [by apply (sublist_inserts_r [new_url w] _ (u :: us)) | done
                      | intros Hnd; by apply (sublist_NoDup _ _ Hnd)]).
  destruct (truthy (new_url w)) eqn:Hn; simpl;
    try (split_and!; [by apply (sublist_inserts_r [new_url w] _ (u :: us)) | done
                      | intros Hnd; by apply (sublist_NoDup _ _ Hnd)]).
  destruct (list_in (new_url w) urls) eqn:Hin; simpl;
    try (split_and!; [by apply (sublist_inserts_r [new_url w] _ (u :: us)) | done
                      | intros Hnd; by apply (sublist_NoDup _ _ Hnd)]).
  rewrite ?add_url_cases, ?Hn, ?Hin. simpl.
  split_and!; [by apply (sublist_app urls (u :: us) [new_url w] [new_url w]) | done |].
  intros Hnd. apply NoDup_app. split_and!.
  - by apply (sublist_NoDup _ _ Hnd).
  - intros x Hx [->|[]%elem_of_nil]%elem_of_cons.
    apply list_in_spec in Hx. congruence.
  - apply NoDup_singleton.
Qed.

Lemma X8_curation_drops_or_appends_witness :
  NoDup (default []
           (discovered_urls
              (manage_urls (vitamins None)
                 {| discovered_urls := Some [txt "a"; txt "b"];
                    url_ := {[ 0 := false ]};
                    search_history := None; objects := [] |}).1.2)).
Proof.
  apply (X8_curation_drops_or_appends (vitamins None)
           {| discovered_urls := Some [txt "a"; txt "b"];
              url_ := {[ 0 := false ]};
              search_history := None; objects := [] |}).
  apply (bool_decide_unpack _). by vm_compute.
Defined.



(** ** Whole runs *)

Lemma discover_step_cases wd w s :
  discover_step wd w s =
  if match pressed w with Some Discover => true | _ => false end
     && truthy (product_category w) && truthy (product_name w)
  then
    let r := discover_product_urls
               (responses_parse wd (product_category w) (product_name w)
                  (tech_spec w)) in
    match outcome r with
    | Ok [] =>
        (st_button (txt "Discover Product URLs") :: log r ++
         [st_warning (txt "Could not discover any relevant URLs. Try modifying your search criteria.") None],
         set_discovered_urls [] s, None)
    | Ok discovered =>
        (st_button (txt "Discover Product URLs") :: log r ++
         [st_success (txt "Found " ++ str_nat (length discovered)
                      ++ txt " relevant URLs for " ++ product_name w)],
         set_discovered_urls discovered s, None)
    | Raise e => (st_button (txt "Discover Product URLs") :: log r, s, Some (Crashed e))
    end
  else ([st_button (txt "Discover Product URLs")], s, None).
Proof.
  unfold discover_step. destruct (pressed w) as [[| |]|]; try done. simpl.
  destruct (truthy (product_category w)); [|done].
  destruct (truthy (product_name w)); [|done]. simpl.
  by destruct (outcome _) as [[|? ?]|].
Qed.



Lemma discover_step_quiet_run wd w s :
  displayed (discover_step wd w s).1.1 = [] /\ (discover_step wd w s).2 = None.
Proof.
  rewrite discover_step_cases. destruct (_ && _); [|done].
  rewrite discover_product_urls_cases.
  by destruct (responses_parse wd _ _ _) as [[[|u us]|]|e].
Qed.

Lemma manage_urls_frame w s :
  search_history (manage_urls w s).1.2 = search_history s
  /\ objects (manage_urls w s).1.2 = objects s
  /\ displayed (manage_urls w s).1.1 = []
  /\ ((manage_urls w s).2 = None
      \/ ((manage_urls w s).2 = Some Rerun /\ pressed w = Some AddURL)).
Proof.
  unfold manage_urls.
  destruct (discovered_urls s) as [[|u us]|];
    [simpl; split_and!; auto | | simpl; split_and!; auto].
  pose proof (checkbox_loop_shows_nothing (u :: us) 0 (url_ s)) as Hc.
  destruct (checkbox_loop 0 (u :: us) (url_ s)) as [[boxes rm] flags].
  unfold displayed in *. simpl in Hc.
  destruct (pressed w) as [[| |]|];
    try (simpl; rewrite omap_app, Hc; split_and!; auto).
  destruct (truthy (new_url w)); [|simpl; rewrite omap_app, Hc; split_and!; auto].
  destruct (negb (list_in (new_url w) _)); simpl;
    rewrite !omap_app, Hc; split_and!; auto.
Qed.

Lemma search_form_run w s :
  (search_form w s).1.2 = s /\ (search_form w s).2 = None
  /\ displayed (search_form w s).1.1 = [].
Proof.
  unfold search_form. simpl. split_and!; [done | done |].
  destruct (objective_eqb (price_calc_objective w) obj_none); [done|].
  by destruct (objective_eqb (price_calc_objective w) obj_unit).
Qed.

(** A run with the credential, block by block. *)
Lemma script_blocks loads wd w s :
  api_key_configured wd = true ->
  let r1 := discover_step wd w s in
  let r2 := manage_urls w r1.1.2 in
  let r3 := analyze_step loads wd w r2.1.2 in
  script loads wd w s =
  match r2.2 with
  | Some h =>
      (page_head ++ st_tabs :: (search_form w s).1.1 ++ r1.1.1 ++ r2.1.1, r2.1.2, h)
  | None =>
      (page_head ++ st_tabs :: (search_form w s).1.1 ++ r1.1.1 ++ r2.1.1 ++ r3.1.1,
       r3.1.2, default Finished r3.2)
  end.
Proof.
  intros Hkey r1 r2 r3. subst r1 r2 r3.
  rewrite (script_configured loads wd w s Hkey). unfold then_.
  destruct (search_form_run w s) as (Hs & Hh & _).
  destruct (search_form w s) as [[l0 s0] h0]. simpl in Hs, Hh. subst s0 h0.
  destruct (discover_step_quiet_run wd w s) as [_ Hh1].
  destruct (discover_step wd w s) as [[l1 s1] h1]. simpl in Hh1. subst h1.
  simpl. destruct (manage_urls w s1) as [[l2 s2] [h2|]]; simpl; [done|].
  by destruct (analyze_step loads wd w s2) as [[l3 s3] h3].
Qed.

Lemma run_analysis_flow loads wd w urls s :
  let r := run_analysis loads wd w urls s in
  discovered_urls r.1.2 = discovered_urls s
  /\ url_ r.1.2 = url_ s
  /\ (active_urls urls (url_ s) = [] ->
      r.2 = Some Stopped
      /\ r.1.1 = [st_warning (txt "No URLs selected. Please select at least one URL.")
                    None]
      /\ search_history r.1.2 = search_history s)
  /\ (active_urls urls (url_ s) <> [] -> r.2 = None).
Proof.
  unfold run_analysis. simpl.
  set (chat := fun i url => chat_completions wd i _ _ _ url).
  generalize (active_urls urls (url_ s)). intros active.
  destruct (analyze_loop_extends loads chat active 0
              (length (objects s)) (objects s ++ [[]])) as [l Hloop].
  destruct active as [|u active]; [simpl; by split_and!|].
  rewrite Hloop. cbn [fst snd].
  destruct (default [] _); simpl; by split_and!.
Qed.

Lemma run_analysis_last loads wd w urls s :
  active_urls urls (url_ s) <> [] ->
  let r := run_analysis loads wd w urls s in
  (last r.1.1
   = Some (st_error (txt "No products found matching your specifications.") None)
   /\ search_history r.1.2 = search_history s)
  \/ exists products,
       products <> [] /\ last r.1.1 = Some (call_display_results products).
Proof.
  unfold run_analysis. simpl.
  set (chat := fun i url => chat_completions wd i _ _ _ url).
  generalize (active_urls urls (url_ s)). intros active Hactive.
  destruct (analyze_loop_extends loads chat active 0
              (length (objects s)) (objects s ++ [[]])) as [l Hloop].
  destruct active as [|u active]; [done|].
  rewrite Hloop. cbn [fst snd].
  destruct (default [] _) as [|p ps]; cbn [fst snd].
  - left. by rewrite last_snoc.
  - right. exists (p :: ps). by rewrite last_snoc.
Qed.

(** X10.  The handler of the analysis button, lines 351-404 taken by
    themselves (the URL block before them, in the same run, can change the
    list).  It changes neither the list of URLs nor the checkbox values.
    With no active URL it shows a warning and stops the run at once, leaving
    the history as it was.  With at least one it never stops: it gets past
    the loop, and the last thing it does is either to report that no
    products were found, the history being as it was, or to call
    [display_results] on a list that is not empty, a call that can raise. *)
Theorem X10_analysis_stops_without_active_urls (loads : text -> res json)
    (wd : world) (w : inputs) (urls : list text) (s : session_state) :
  let r := run_analysis loads wd w urls s in
  discovered_urls r.1.2 = discovered_urls s
  /\ url_ r.1.2 = url_ s
  /\ (r.2 = Some Stopped <-> active_urls urls (url_ s) = [])
  /\ (active_urls urls (url_ s) = [] ->
      r.1.1 = [st_warning (txt "No URLs selected. Please select at least one URL.")
                 None]
      /\ search_history r.1.2 = search_history s)
  /\ (active_urls urls (url_ s) <> [] ->
      r.2 = None
      /\ ((last r.1.1
           = Some (st_error (txt "No products found matching your specifications.")
                     None)
           /\ search_history r.1.2 = search_history s)
          \/ exists products,
               products <> []
               /\ last r.1.1 = Some (call_display_results products))).
Proof.
  intros r. subst r.
  destruct (run_analysis_flow loads wd w urls s) as (Hu & Hf & Hnone & Hsome).
  split_and!; [done | done | | by intros H; apply Hnone in H as (_ & ? & ?) |].
  - split; [|by intros H; apply Hnone in H as (? & _)].
    intros Hstop. destruct (active_urls urls (url_ s)) eqn:Ha; [done|].
    rewrite Hsome in Hstop; done.
  - intros Ha. split; [by apply Hsome|]. by apply run_analysis_last.
Qed.

Lemma X10_analysis_stops_without_active_urls_witness :
  (run_analysis json_loads echo_world (vitamins (Some Analyze)) [txt "https://a.lt"]
     (set_checkbox 0 false empty_session)).1.1
  = [st_warning (txt "No URLs selected. Please select at least one URL.") None]
  /\ exists products,
       last (run_analysis json_loads echo_world (vitamins (Some Analyze))
               [txt "https://a.lt"] empty_session).1.1
       = Some (call_display_results products).
Proof.
  split.
  - destruct (X10_analysis_stops_without_active_urls json_loads echo_world
                (vitamins (Some Analyze)) [txt "https://a.lt"]
                (set_checkbox 0 false empty_session)) as (_ & _ & _ & Hstop & _).
    by apply Hstop.
  - destruct (X10_analysis_stops_without_active_urls json_loads echo_world
                (vitamins (Some Analyze)) [txt "https://a.lt"]
                empty_session) as (_ & _ & _ & _ & Hgo).
    destruct Hgo as (_ & [[Hlast _]|(products & _ & Hlast)]); [done | |].
    + by vm_compute in Hlast.
    + by exists products.
Defined.

Lemma analyze_step_run loads wd w s :
  let r := analyze_step loads wd w s in
  (pressed w <> Some Analyze -> r.1.2 = s /\ r.2 = None /\ displayed r.1.1 = [])
  /\ (r.2 = None \/ (r.2 = Some Stopped /\ pressed w = Some Analyze))
  /\ (displayed r.1.1 = []
      \/ exists products, products <> [] /\ displayed r.1.1 = [products]
                          /\ pressed w = Some Analyze).
Proof.
  unfold analyze_step.
  destruct (discovered_urls s) as [[|u us]|]; try (simpl; by auto).
  destruct (pressed w) as [[| |]|]; try (simpl; by auto).
  pose proof (run_analysis_flow loads wd w (u :: us) s) as (_ & _ & Hstop & Hgo).
  pose proof (run_analysis_records loads wd w (u :: us) s) as (_ & _ & Hrec).
  destruct (run_analysis loads wd w (u :: us) s) as [[l s'] h]. simpl in *.
  change (displayed (st_button (txt "Analyze Product Prices") :: l))
    with (displayed l).
  split_and!; [done | |].
  - destruct (active_urls (u :: us) (url_ s)) as [|a act].
    + right. by destruct Hstop as (? & _).
    + left. by apply Hgo.
  - destruct (aggregate loads wd w (u :: us) s) as [|p ps].
    + left. by destruct Hrec as (_ & ? & _).
    + right. exists (p :: ps). by destruct Hrec as (_ & ? & _).
Qed.

Lemma page_head_shows_nothing l : displayed (page_head ++ st_tabs :: l) = displayed l.
Proof. done. Qed.





(** X12.  A run calls [display_results] at most once, only when the
    analysis button was pressed, and never with an empty list: the guard for
    an empty list at the head of [display_results] is never taken. *)
Theorem X12_results_are_shown_once_and_not_empty (loads : text -> res json)
    (wd : world) (w : inputs) (s : session_state) :
  displayed (script loads wd w s).1.1 = []
  \/ exists products,
       products <> [] /\ displayed (script loads wd w s).1.1 = [products]
       /\ pressed w = Some Analyze.
Proof.
  destruct (api_key_configured wd) eqn:Hkey.
  2: { destruct (script_without_key loads wd w s Hkey) as [[_ ->]|[_ ->]]; by left. }
  rewrite (script_blocks loads wd w s Hkey). cbv zeta.
  destruct (search_form_run w s) as (_ & _ & H0).
  destruct (discover_step_quiet_run wd w s) as [H1 _].
  set (s1 := (discover_step wd w s).1.2).
  destruct (manage_urls_frame w s1) as (_ & _ & H2 & _).
  destruct ((manage_urls w s1).2).
  - left. cbn [fst snd]. by rewrite page_head_shows_nothing, !displayed_app, H0, H1, H2.
  - cbn [fst snd]. rewrite page_head_shows_nothing, !displayed_app, H0, H1, H2.
    apply analyze_step_run.
Qed.

Lemma discover_step_frame wd w s :
  url_ (discover_step wd w s).1.2 = url_ s
  /\ search_history (discover_step wd w s).1.2 = search_history s
  /\ objects (discover_step wd w s).1.2 = objects s.
Proof.
  rewrite discover_step_cases. destruct (_ && _); [|done].
  rewrite discover_product_urls_cases.
  by destruct (responses_parse wd _ _ _) as [[[|u us]|]|e].
Qed.

(** X13.  Only the analysis button changes the history: a run in which it
    is not pressed leaves the history and the objects it refers to as they
    were. *)
Theorem X13_only_analysis_touches_the_history (loads : text -> res json)
    (wd : world) (w : inputs) (s : session_state) :
  pressed w <> Some Analyze ->
  search_history (script loads wd w s).1.2 = search_history s
  /\ objects (script loads wd w s).1.2 = objects s.
Proof.
  intros Hp. destruct (api_key_configured wd) eqn:Hkey.
  2: { by destruct (script_without_key loads wd w s Hkey) as [[_ ->]|[_ ->]]. }
  rewrite (script_blocks loads wd w s Hkey). cbv zeta.
  destruct (discover_step_frame wd w s) as (_ & Hh1 & Ho1).
  set (s1 := (discover_step wd w s).1.2) in *.
  destruct (manage_urls_frame w s1) as (Hh2 & Ho2 & _).
  set (s2 := (manage_urls w s1).1.2) in *.
  destruct ((manage_urls w s1).2); cbn [fst snd]; [by rewrite Hh2, Ho2|].
  destruct (analyze_step_run loads wd w s2) as (Hidle & _).
  destruct (Hidle Hp) as (-> & _). by rewrite Hh2, Ho2.
Qed.

Lemma X13_only_analysis_touches_the_history_witness :
  search_history
    (script json_loads echo_world (vitamins (Some Discover)) empty_session).1.2
  = None.
Proof.
  by apply (X13_only_analysis_touches_the_history json_loads echo_world
              (vitamins (Some Discover)) empty_session).
Defined.

Lemma checkbox_loop_all_ticked urls : forall i flags,
  (forall k, k < length urls -> flags !! (i + k) <> Some false) ->
  (checkbox_loop i urls flags).1.2 = [].
Proof.
  induction urls as [|u urls IH]; intros i flags Hf; [done|].
  rewrite checkbox_loop_cons.
  assert (default true (flags !! i) = true) as ->.
  { specialize (Hf 0). rewrite Nat.add_0_r in Hf.
    destruct (flags !! i) as [[|]|]; try done. destruct Hf; [simpl; lia | done]. }
  apply IH. intros k Hk. replace (S i + k) with (i + S k) by lia.
  apply Hf. simpl. lia.
Qed.

Lemma manage_urls_list w s :
  pressed w <> Some AddURL ->
  discovered_urls (manage_urls w s).1.2
  = match discovered_urls s with
    | Some (u :: us) =>
        Some (remove_unchecked (checkbox_loop 0 (u :: us) (url_ s)).1.2 (u :: us))
    | other => other
    end
  /\ (manage_urls w s).2 = None.
Proof.
  intros Hp. unfold manage_urls.
  destruct (discovered_urls s) as [[|u us]|] eqn:Hurls; try (by rewrite <- Hurls).
  destruct (checkbox_loop 0 (u :: us) (url_ s)) as [[boxes rm] flags].
  by destruct (pressed w) as [[| |]|].
Qed.

(** X14.  A fresh discovery is filtered at once by the checkbox values left
    in the session: in the run that discovers a list without duplicates, the
    list kept is the reply without the URLs at the positions whose checkbox
    was cleared before. *)
Theorem X14_fresh_list_meets_old_checkboxes (loads : text -> res json)
    (wd : world) (w : inputs) (s : session_state) (urls : list text) :
  api_key_configured wd = true ->
  pressed w = Some Discover ->
  truthy (product_category w) = true -> truthy (product_name w) = true ->
  responses_parse wd (product_category w) (product_name w) (tech_spec w)
  = Ok (Some urls) ->
  NoDup urls ->
  discovered_urls (script loads wd w s).1.2 = Some (active_urls urls (url_ s)).
Proof.
  intros Hkey Hp Hc Hn Hreply Hnd.
  rewrite (script_blocks loads wd w s Hkey). cbv zeta.
  assert (discovered_urls (discover_step wd w s).1.2 = Some urls
          /\ url_ (discover_step wd w s).1.2 = url_ s) as [Hd Hf].
  { rewrite discover_step_cases, Hp, Hc, Hn. simpl.
    rewrite discover_product_urls_cases, Hreply. simpl. by destruct urls. }
  set (s1 := (discover_step wd w s).1.2) in *.
  assert (pressed w <> Some AddURL) as Hnoadd by (rewrite Hp; discriminate).
  assert (pressed w <> Some Analyze) as Hnoan by (rewrite Hp; discriminate).
  destruct (manage_urls_list w s1 Hnoadd) as [Hl ->].
  destruct (analyze_step_run loads wd w (manage_urls w s1).1.2) as (Hidle & _).
  destruct (Hidle Hnoan) as (-> & _). cbn [fst snd].
  rewrite Hl, Hd, Hf. destruct urls as [|u us]; [done|].
  by rewrite remove_unchecked_is_filter.
Qed.

Lemma X14_fresh_list_meets_old_checkboxes_witness :
  discovered_urls
    (script json_loads echo_world (vitamins (Some Discover))
       (set_checkbox 0 false empty_session)).1.2
  = Some [txt "https://b.lt"; txt "https://c.lt"].
Proof.
  apply (X14_fresh_list_meets_old_checkboxes json_loads echo_world
           (vitamins (Some Discover)) (set_checkbox 0 false empty_session)
           [txt "https://a.lt"; txt "https://b.lt"; txt "https://c.lt"]);
    try reflexivity.
  apply (bool_decide_unpack _). by vm_compute.
Defined.

(** X15.  A run in which no button is pressed and no checkbox of the list
    is cleared changes neither the list nor the history, and ends at the end
    of the script. *)
Theorem X15_an_idle_run_changes_nothing (loads : text -> res json) (wd : world)
    (w : inputs) (s : session_state) :
  api_key_configured wd = true ->
  pressed w = None ->
  (forall k, k < length (default [] (discovered_urls s)) ->
     url_ s !! k <> Some false) ->
  discovered_urls (script loads wd w s).1.2 = discovered_urls s
  /\ search_history (script loads wd w s).1.2 = search_history s
  /\ objects (script loads wd w s).1.2 = objects s
  /\ (script loads wd w s).2 = Finished.
Proof.
  intros Hkey Hp Hticked.
  rewrite (script_blocks loads wd w s Hkey). cbv zeta.
  assert ((discover_step wd w s).1.2 = s) as ->.
  { rewrite discover_step_cases, Hp. done. }
  assert (pressed w <> Some AddURL) as Hnoadd by (rewrite Hp; discriminate).
  assert (pressed w <> Some Analyze) as Hnoan by (rewrite Hp; discriminate).
  destruct (manage_urls_list w s Hnoadd) as [Hl ->].
  destruct (manage_urls_frame w s) as (Hh & Ho & _).
  destruct (analyze_step_run loads wd w (manage_urls w s).1.2) as (Hidle & _).
  destruct (Hidle Hnoan) as (-> & -> & _). cbn [fst snd].
  split_and!; [|done | done | done].
  rewrite Hl. destruct (discovered_urls s) as [[|u us]|]; try done.
  by rewrite checkbox_loop_all_ticked.
Qed.

Lemma X15_an_idle_run_changes_nothing_witness :
  discovered_urls
    (script json_loads echo_world (vitamins None)
       {| discovered_urls := Some [txt "https://a.lt"; txt "https://b.lt"];
          url_ := {[ 0 := true ]}; search_history := None; objects := [] |}).1.2
  = Some [txt "https://a.lt"; txt "https://b.lt"].
Proof.
  apply (X15_an_idle_run_changes_nothing json_loads echo_world (vitamins None)
           {| discovered_urls := Some [txt "https://a.lt"; txt "https://b.lt"];
              url_ := {[ 0 := true ]}; search_history := None; objects := [] |});
    try reflexivity.
  intros [|[|k]] Hk; simpl in *; try done. lia.
Defined.

(** ** Drawing *)

Lemma emit_result l r :
  (emit l r).2
  = (if forallb (fun u => encodable (drawn_text u)) l then r
     else Raise UnicodeEncodeError)
  /\ (forallb (fun u => encodable (drawn_text u)) l = true -> (emit l r).1 = l).
Proof.
  induction l as [|u l [IHr IHl]]; [done|].
  simpl. destruct (encodable (drawn_text u)); [|done].
  destruct (emit l r) as [shown r']. simpl in *. split; [done|].
  intros Hl. by rewrite IHl.
Qed.

Lemma encodable_app a b : encodable (a ++ b) = encodable a && encodable b.
Proof. apply forallb_app. Qed.

Lemma encodable_txt s : encodable (txt s) = true.
Proof.
  unfold txt. induction s as [|a s IH]; [done|].
  simpl. rewrite IH, andb_true_r.
  assert (N_of_ascii a < 256)%N as Ha by apply N_ascii_bounded.
  apply orb_true_iff. left. apply N.ltb_lt. lia.
Qed.

Lemma encodable_dec fuel : forall n, encodable (dec fuel n) = true.
Proof.
  induction fuel as [|fuel IH]; intros n; [done|].
  rewrite dec_S. destruct (n <? 10)%N eqn:Hn.
  - simpl. rewrite andb_true_r. apply orb_true_iff. left.
    apply N.ltb_lt in Hn. apply N.ltb_lt. lia.
  - rewrite encodable_app, IH. simpl. rewrite andb_true_r.
    apply orb_true_iff. left. apply N.ltb_lt.
    pose proof (N.mod_upper_bound n 10). lia.
Qed.

Lemma encodable_str_nat n : encodable (str_nat n) = true.
Proof. apply encodable_dec. Qed.


Lemma expanders_app l1 l2 : expanders (l1 ++ l2) = expanders l1 ++ expanders l2.
Proof. apply omap_app. Qed.






(** What a clean product hands to the page is encodable. *)

Section Clean.

Variable repr : json -> text.
Hypothesis repr_encodable : forall v, encodable (repr v) = true.

Lemma dict_get_clean k d v :
  clean_product (JObj d) = true -> dict_get k d = Some v ->
  clean_member v = true
  /\ match v with JObj ps => clean_object ps = true | _ => True end.
Proof.
  simpl. induction d as [|[k' v'] d IH]; [done|].
  simpl. intros [[Hm Ho]%andb_true_iff Hd]%andb_true_iff.
  destruct (text_eqb k k'); [|by apply IH].
  intros [= <-]. split; [done|]. by destruct v'.
Qed.

Lemma py_str_clean v : clean_member v = true -> encodable (py_str repr v) = true.
Proof. destruct v; simpl; auto. Qed.

Lemma get_str_clean k fallback d :
  clean_product (JObj d) = true -> encodable (get_str repr k fallback d) = true.
Proof.
  intros Hd. unfold get_str. apply py_str_clean.
  destruct (dict_get (txt k) d) as [v|] eqn:Hk.
  - by destruct (dict_get_clean _ _ _ Hd Hk).
  - apply encodable_txt.
Qed.

Lemma objective_key_encodable o : encodable (objective_key o) = true.
Proof. by destruct o. Qed.


Lemma unit_display_clean o d :
  clean_product (JObj d) = true -> encodable (unit_display repr o d) = true.
Proof.
  intros Hd. unfold unit_display.
  destruct (objective_eqb o obj_unit).
  - destruct (dict_get (txt "unit_type") d) as [v|] eqn:Hk.
    + rewrite encodable_app, encodable_txt. simpl. apply py_str_clean.
      by destruct (dict_get_clean _ _ _ Hd Hk).
    + by repeat destruct (objective_eqb _ _).
  - by repeat destruct (objective_eqb _ _).
Qed.

Lemma price_calc_title_clean o d :
  clean_product (JObj d) = true ->
  encodable (default [] (price_calc_title repr o d)) = true.
Proof.
  intros Hd. unfold price_calc_title.
  destruct (negb (objective_eqb o obj_none)); [|done].
  destruct (dict_get (price_per_key o) d) as [v|] eqn:Hk; [|done].
  change (default [] (Some ?x)) with x.
  rewrite !encodable_app, encodable_txt, unit_display_clean by done.
  rewrite py_str_clean by (by destruct (dict_get_clean _ _ _ Hd Hk)).
  by rewrite encodable_txt.
Qed.


Lemma encodable_calls_app l1 l2 :
  encodable_calls (l1 ++ l2) = encodable_calls l1 && encodable_calls l2.
Proof. apply forallb_app. Qed.

Lemma encodable_calls_cons u l :
  encodable_calls (u :: l) = encodable (drawn_text u) && encodable_calls l.
Proof. done. Qed.







End Clean.





(** ** The history tab *)

Lemma draw_recorded_products_result repr o products : forall j,
  (draw_recorded_products repr o j products).2
  = (if forallb is_object products then Ok () else Raise AttributeError)
  /\ expanders (draw_recorded_products repr o j products).1 = [].
Proof.
  induction products as [|p ps IH]; intros j; [done|].
  destruct p as [| | | | | | |d]; try done.
  simpl. destruct (IH (S j)) as [IHr IHe].
  by destruct (draw_recorded_products repr o (S j) ps) as [l r].
Qed.

Lemma draw_entry_result repr e products :
  (draw_entry repr e products).2
  = (if forallb is_object products then Ok () else Raise AttributeError)
  /\ expanders (draw_entry repr e products).1 = [entry_title e].
Proof.
  unfold draw_entry. cbv zeta.
  destruct (draw_recorded_products_result repr (entry_price_calc_objective e)
              products 0) as [Hr He].
  destruct (draw_recorded_products _ _ _ _) as [l r]. simpl in *.
  split; [done|]. rewrite !expanders_app, He.
  by destruct (negb _).
Qed.

Lemma draw_entries_result repr objs entries :
  let ok := forallb (fun e => forallb is_object (default [] (objs !! results e)))
              entries in
  (draw_entries repr objs entries).2 = (if ok then Ok () else Raise AttributeError)
  /\ (ok = true ->
      expanders (draw_entries repr objs entries).1 = map entry_title entries).
Proof.
  induction entries as [|e es IH]; [done|].
  simpl in *. destruct (draw_entry_result repr e (default [] (objs !! results e)))
    as [Hr He].
  destruct (draw_entry repr e _) as [l r]. simpl in Hr, He. subst r.
  destruct (forallb is_object _); simpl; [|done].
  destruct IH as [IHr IHe].
  destruct (draw_entries repr objs es) as [l' r']. simpl in *.
  split; [done|]. intros Hok. by rewrite expanders_app, He, IHe.
Qed.

Lemma forallb_reverse {A} (f : A -> bool) l : forallb f (reverse l) = forallb f l.
Proof.
  induction l as [|x l IH]; [done|].
  rewrite reverse_cons, forallb_app, IH. simpl. by destruct (f x), (forallb f l).
Qed.

Lemma search_history_tab_calls_result repr s :
  (search_history_tab_calls repr s).2
  = (if recorded_objects s then Ok () else Raise AttributeError)
  /\ (recorded_objects s = true ->
      expanders (search_history_tab_calls repr s).1
      = map entry_title (reverse (default [] (search_history s)))).
Proof.
  unfold search_history_tab_calls, recorded_objects.
  destruct (search_history s) as [[|e es]|]; try done.
  cbn [default].
  destruct (draw_entries_result repr (objects s) (reverse (e :: es))) as [Hr He].
  rewrite forallb_reverse in Hr, He.
  by destruct (draw_entries repr (objects s) (reverse (e :: es))) as [l r].
Qed.

Lemma search_history_tab_outcome repr s :
  let r := (search_history_tab repr s).2 in
  (r = Ok () \/ r = Raise AttributeError \/ r = Raise UnicodeEncodeError)
  /\ (r = Ok () -> recorded_objects s = true).
Proof.
  cbv zeta. unfold search_history_tab.
  destruct (search_history_tab_calls_result repr s) as [Hr _].
  destruct (search_history_tab_calls repr s) as [l r]. simpl in Hr. subst r.
  destruct (emit_result l (if recorded_objects s then Ok ()
                           else Raise AttributeError)) as [-> _].
  destruct (forallb _ l), (recorded_objects s); split; auto; done.
Qed.

Section CleanHistory.

Variable repr : json -> text.
Hypothesis repr_encodable : forall v, encodable (repr v) = true.

Lemma draw_recorded_products_clean o products : forall j,
  forallb clean_product products = true ->
  encodable_calls (draw_recorded_products repr o j products).1 = true.
Proof.
  induction products as [|p ps IH]; intros j; [done|].
  intros H. cbn [forallb] in H. apply andb_true_iff in H as [Hp Hps].
  destruct p as [| | | | | | |d]; try done.
  cbn [draw_recorded_products draw_recorded_product].
  specialize (IH (S j) Hps).
  destruct (draw_recorded_products repr o (S j) ps) as [l r]. cbn [fst] in *.
  rewrite encodable_calls_app, IH, andb_true_r.
  rewrite !encodable_calls_cons. cbn [drawn_text].
  rewrite !encodable_app, !encodable_txt, encodable_str_nat,
    !(get_str_clean repr repr_encodable) by done.
  by rewrite (price_calc_title_clean repr repr_encodable).
Qed.

Lemma draw_entry_clean e products :
  clean_entry e = true -> forallb clean_product products = true ->
  encodable_calls (draw_entry repr e products).1 = true.
Proof.
  unfold clean_entry.
  intros [[[Ht Hc]%andb_true_iff Hn]%andb_true_iff Hs]%andb_true_iff Hps.
  unfold draw_entry. cbv zeta.
  pose proof (draw_recorded_products_clean (entry_price_calc_objective e)
                products 0 Hps) as Hl.
  destruct (draw_recorded_products _ _ _ _) as [l r]. cbn [fst] in *.
  unfold entry_title.
  destruct (negb (objective_eqb (entry_price_calc_objective e) obj_none));
    rewrite !encodable_calls_app, Hl, andb_true_r, !encodable_calls_cons;
    cbn [drawn_text];
    rewrite !encodable_app, !encodable_txt, encodable_str_nat, Ht, Hc, Hn, Hs,
      ?objective_key_encodable; done.
Qed.

Lemma draw_entries_clean objs entries :
  forallb (fun e => clean_entry e
                    && forallb clean_product (default [] (objs !! results e)))
    entries = true ->
  encodable_calls (draw_entries repr objs entries).1 = true.
Proof.
  induction entries as [|e es IH]; [done|].
  intros H. cbn [forallb] in H.
  apply andb_true_iff in H as [[He Hps]%andb_true_iff Hes].
  cbn [draw_entries].
  pose proof (draw_entry_clean e _ He Hps) as Hl.
  destruct (draw_entry repr e _) as [l [[]|x]]; [|done].
  specialize (IH Hes).
  destruct (draw_entries repr objs es) as [l' r']. cbn [fst] in *.
  by rewrite encodable_calls_app, Hl, IH.
Qed.

Lemma search_history_tab_calls_clean s :
  clean_history s = true ->
  encodable_calls (search_history_tab_calls repr s).1 = true.
Proof.
  unfold clean_history, search_history_tab_calls.
  destruct (search_history s) as [[|e es]|]; try done.
  intros H. change (default [] (Some (e :: es))) with (e :: es) in H.
  rewrite <- forallb_reverse in H.
  pose proof (draw_entries_clean (objects s) _ H) as Hl.
  destruct (draw_entries repr (objects s) (reverse (e :: es))) as [l r].
  cbn [fst] in *. by rewrite encodable_calls_cons, Hl.
Qed.

End CleanHistory.

Lemma search_history_tab_clean repr s :
  (forall v, encodable (repr v) = true) -> clean_history s = true ->
  search_history_tab repr s = search_history_tab_calls repr s.
Proof.
  intros Hrepr Hclean. unfold search_history_tab.
  pose proof (search_history_tab_calls_clean repr Hrepr s Hclean) as Hcalls.
  destruct (search_history_tab_calls repr s) as [l r]. simpl in Hcalls.
  destruct (emit_result l r) as [Hemit Hshown].
  unfold encodable_calls in Hcalls. rewrite Hcalls in Hemit.
  specialize (Hshown Hcalls). by destruct (emit l r) as [l' r']; simpl in *; subst.
Qed.

(** X18.  The history tab returns or raises [AttributeError] or
    [UnicodeEncodeError], and it returns only when every product of every
    entry is an object.  When no string it shows holds a lone surrogate, it
    raises, and then [AttributeError], exactly when some product of some
    entry is not an object; and when it returns, it has drawn one expander
    for each entry, the newest first, under the title made of the entry's
    time, category, name and price basis. *)
Theorem X18_history_tab_needs_objects (repr : json -> text) (s : session_state) :
  let r := (search_history_tab repr s).2 in
  (r = Ok () \/ r = Raise AttributeError \/ r = Raise UnicodeEncodeError)
  /\ (r = Ok () -> recorded_objects s = true)
  /\ ((forall v, encodable (repr v) = true) -> clean_history s = true ->
      r = (if recorded_objects s then Ok () else Raise AttributeError)
      /\ (recorded_objects s = true ->
          expanders (search_history_tab repr s).1
          = map entry_title (reverse (default [] (search_history s))))).
Proof.
  cbv zeta. destruct (search_history_tab_outcome repr s) as [Hcases Hok].
  split_and!; [done | done |].
  intros Hrepr Hclean. rewrite (search_history_tab_clean repr s) by done.
  apply search_history_tab_calls_result.
Qed.

Lemma X18_history_tab_needs_objects_witness :
  expanders
    (search_history_tab (fun _ => [])
       (session_after json_loads three_interactions empty_session)).1
  = [txt "2025-03-09 08:05:01 - [Vitamins] Vitamin D  (Price per unit)";
     txt "2025-03-09 07:05:01 - [Vitamins] Vitamin D  (Price per unit)"].
Proof.
  destruct (X18_history_tab_needs_objects (fun _ => [])
              (session_after json_loads three_interactions empty_session))
    as (_ & _ & Hclean).
  destruct Hclean as [_ Hdrawn]; [done | by vm_compute |].
  rewrite Hdrawn; by vm_compute.
Defined.

(** ** A whole run *)












